(** * Usage-log panel of bmai-tools: credential extraction, model filtering,
      period aggregation, display helpers and the two remote-call wrappers.

    Sources embedded here:
    - [src/components/usage/UsageLogPanel.tsx] ([extractApiKey],
      [formatTokens], [calcProgress], the [models] filter, the [periodUsage]
      reduction, [handleQuery] and the conditions of the rendered sections);
    - the API module that exports [usageLogApi] ([query], [queryModelStats]).

    JavaScript numbers are IEEE-754 binary64 values and are modelled by Rocq's
    primitive floats, whose operations are the same binary64 operations;
    request and token counters are such numbers too.
    A string is the UTF-8 byte sequence of the JavaScript string. White space
    is the white space and the line terminators of ECMAScript; lower-casing
    maps capital ASCII letters to small ones and takes the Unicode
    lower-casing of every other character as a parameter. *)

From Stdlib Require Import ZArith List String Ascii Bool Lia Permutation.
From Stdlib Require Import Floats DecimalString.
From Stdlib Require Uint63.
Import ListNotations.

Set Warnings "-inexact-float,-register-all".
Open Scope string_scope.

(** ** JavaScript values and the built-in operations the sources use *)
Module JS.

(** JSON-shaped values: what [JSON.parse] and the IPC bridge produce. An
    object is an association list with pairwise distinct keys. *)
Inductive value : Type :=
| VUndefined
| VNull
| VBool (b : bool)
| VNumber (x : float)
| VString (s : string)
| VArray (items : list value)
| VObject (props : list (string * value)).

(** [ToBoolean]: the test behind [!v], [v || w] and [v && w]. *)
Definition truthy (v : value) : bool :=
  match v with
  | VUndefined | VNull => false
  | VBool b => b
  | VNumber x => negb (is_zero x || is_nan x)
  | VString s => negb (s =? "")
  | VArray _ | VObject _ => true
  end.

Definition nullish (v : value) : bool :=
  match v with
  | VUndefined | VNull => true
  | _ => false
  end.

Fixpoint assoc (k : string) (props : list (string * value)) : option value :=
  match props with
  | [] => None
  | (k', v) :: rest => if k' =? k then Some v else assoc k rest
  end.

(** [v.k] for a property name [k] that no built-in prototype, array or string
    defines (every name read by the sources is of that kind): the own property
    of an object, [undefined] on any other non-nullish value, and a
    [TypeError] ([None]) on [null] and [undefined]. *)
Definition get_prop (v : value) (k : string) : option value :=
  match v with
  | VUndefined | VNull => None
  | VObject props =>
      Some match assoc k props with Some x => x | None => VUndefined end
  | _ => Some VUndefined
  end.

(** [v?.k] *)
Definition get_opt (v : value) (k : string) : value :=
  match get_prop v k with
  | Some x => x
  | None => VUndefined
  end.

(** [v ?? d] *)
Definition coalesce (v d : value) : value := if nullish v then d else v.

(** [typeof v === "string" ? v : ""] *)
Definition string_or_empty (v : value) : string :=
  match v with
  | VString s => s
  | _ => ""
  end.

(** *** Numbers *)

(** SameValueZero, the equality of numbers up to the sign of zero, under
    which [NaN] equals itself. *)
Definition same_number (x y : float) : bool :=
  (x =? y)%float || (is_nan x && is_nan y).

(** [!x] on a number. *)
Definition falsy_number (x : float) : bool := is_zero x || is_nan x.

(** [Math.min] of two numbers. *)
Definition Math_min (x y : float) : float :=
  if is_nan x || is_nan y then nan
  else if (x <? y)%float then x
  else if (y <? x)%float then y
  else if is_zero x && get_sign x then x
  else y.

(** The number with the integer value [n], for [n] of magnitude below 2^53. *)
Definition number (n : Z) : float :=
  if (n <? 0)%Z then (- of_uint63 (Uint63Axioms.of_Z (- n)))%float
  else of_uint63 (Uint63Axioms.of_Z n).

(** Decimal digits of a non-negative integer, ["0"] for zero. *)
Definition digits (n : Z) : string := NilZero.string_of_uint (N.to_uint (Z.to_N n)).

(** The integer [n] with [n / 10^f] closest to [m * 2^e], the larger one of
    two equally close. *)
Definition round_scaled (m : positive) (e : Z) (f : nat) : Z :=
  let p := (Z.pos m * 10 ^ Z.of_nat f)%Z in
  match e with
  | Z.neg d => ((2 * p + 2 ^ Z.pos d) / (2 * 2 ^ Z.pos d))%Z
  | _ => (p * 2 ^ e)%Z
  end.

Fixpoint zeros (k : nat) : string :=
  match k with
  | O => ""
  | S k' => String "0" (zeros k')
  end.

(** The digits of [n] with a decimal point before the last [f] of them, padded
    with zeros on the left to at least [f + 1] digits. *)
Definition place_point (n : Z) (f : nat) : string :=
  let m := digits n in
  match f with
  | O => m
  | S _ =>
      let m := zeros (S f - String.length m) ++ m in
      let k := String.length m in
      substring 0 (k - f) m ++ "." ++ substring (k - f) f m
  end.

(** The value of [m * 2^e] when it is an integer. *)
Definition integer_value (m : positive) (e : Z) : option Z :=
  match e with
  | Z.neg d =>
      if (Z.pos m mod 2 ^ Z.pos d =? 0)%Z then Some (Z.pos m / 2 ^ Z.pos d)%Z
      else None
  | _ => Some (Z.pos m * 2 ^ e)%Z
  end.

(** The integer value of a number that is a non-negative integer, [-1] for
    any other number. *)
Definition count (x : float) : Z :=
  match Prim2SF x with
  | S754_zero _ => 0
  | S754_finite false m e =>
      match integer_value m e with
      | Some n => n
      | None => -1
      end
  | _ => -1
  end.

Section NumberToString.

(** [Number::toString] (radix 10) where it is not spelled out below: finite
    numbers that are not integers, and magnitudes from 2^53, whose shortest
    round-trip digits are not the digits of their exact value. *)
Variable Number_toString_other : float -> string.

(** [x.toString()] and [String(x)] for a number [x]. *)
Definition Number_toString (x : float) : string :=
  match Prim2SF x with
  | S754_nan => "NaN"
  | S754_zero _ => "0"
  | S754_infinity s => if s then "-Infinity" else "Infinity"
  | S754_finite s m e =>
      match integer_value m e with
      | Some n =>
          if (n <? 2 ^ 53)%Z then (if s then "-" else "") ++ digits n
          else Number_toString_other x
      | None => Number_toString_other x
      end
  end.

(** [x.toFixed(f)] for [0 <= f <= 100]: below 10^21 the exact value of [x]
    is rounded to [f] decimals, from 10^21 on the result is [String(x)]. *)
Definition toFixed (x : float) (f : nat) : string :=
  match Prim2SF x with
  | S754_nan => "NaN"
  | S754_infinity s => if s then "-Infinity" else "Infinity"
  | S754_zero _ => place_point 0 f
  | S754_finite s m e =>
      (if s then "-" else "") ++
      (if (1e21 <=? abs x)%float then Number_toString (abs x)
       else place_point (round_scaled m e f) f)
  end.

End NumberToString.

(** *** Strings *)

(** The lower-casing of an ASCII character: [A]-[Z] become [a]-[z]. *)
Definition lower_char (c : ascii) : ascii :=
  let n := N_of_ascii c in
  if ((65 <=? n) && (n <=? 90))%N then ascii_of_N (n + 32) else c.

Section LowerCase.

(** Unicode lower-casing outside ASCII, a built-in: [lower_other s i] is the
    text that takes the place of the byte at index [i] of [s] when that byte
    is not ASCII (the lower-cased code point for the first byte of a code
    point, nothing for its other bytes). In every context an ASCII character
    lower-cases to its ASCII counterpart. *)
Variable lower_other : string -> nat -> string.

Fixpoint lower_from (whole : string) (i : nat) (s : string) : string :=
  match s with
  | EmptyString => EmptyString
  | String c rest =>
      (if (N_of_ascii c <? 128)%N then String (lower_char c) EmptyString
       else lower_other whole i)
      ++ lower_from whole (S i) rest
  end.

(** [s.toLowerCase()] *)
Definition toLowerCase (s : string) : string := lower_from s 0 s.

End LowerCase.

(** [s.includes(kw)] *)
Fixpoint includes (s kw : string) : bool :=
  prefix kw s ||
  match s with
  | EmptyString => false
  | String _ rest => includes rest kw
  end.

(** *** White space *)

(** The text with the given bytes. *)
Definition utf8 (l : list nat) : string :=
  fold_right (fun n s => String (ascii_of_nat n) s) EmptyString l.

(** The white space and the line terminators of ECMAScript, in UTF-8: U+0009
    to U+000D, U+0020, U+00A0, U+1680, U+2000 to U+200A, U+2028, U+2029,
    U+202F, U+205F, U+3000 and U+FEFF. *)
Definition white_space : list string :=
  map utf8
    [[9]; [10]; [11]; [12]; [13]; [32]; [194; 160]; [225; 154; 128];
     [226; 128; 128]; [226; 128; 129]; [226; 128; 130]; [226; 128; 131];
     [226; 128; 132]; [226; 128; 133]; [226; 128; 134]; [226; 128; 135];
     [226; 128; 136]; [226; 128; 137]; [226; 128; 138];
     [226; 128; 168]; [226; 128; 169]; [226; 128; 175]; [226; 129; 159];
     [227; 128; 128]; [239; 187; 191]].

(** What follows [w] in [s], when [s] starts with [w]. *)
Fixpoint after (w s : string) : option string :=
  match w, s with
  | EmptyString, _ => Some s
  | String a w', String b s' => if Ascii.eqb a b then after w' s' else None
  | String _ _, EmptyString => None
  end.

Fixpoint skip_one (ws : list string) (s : string) : option string :=
  match ws with
  | [] => None
  | w :: ws' =>
      match after w s with
      | Some rest => Some rest
      | None => skip_one ws' s
      end
  end.

(** What follows the white-space character that [s] starts with, if any. *)
Definition skip_space (s : string) : option string := skip_one white_space s.

Fixpoint trimStart_from (n : nat) (s : string) : string :=
  match n with
  | O => s
  | S n' =>
      match skip_space s with
      | Some rest => trimStart_from n' rest
      | None => s
      end
  end.

(** [s.trimStart()] *)
Definition trimStart (s : string) : string := trimStart_from (String.length s) s.

(** [s.trimEnd()]: the text up to its last character that is not white
    space. *)
Fixpoint trimEnd (s : string) : string :=
  match s with
  | EmptyString => EmptyString
  | String c rest =>
      if trimStart s =? "" then EmptyString else String c (trimEnd rest)
  end.

(** [s.trim()] *)
Definition trim (s : string) : string := trimEnd (trimStart s).

(** [!s.trim()]: a text of nothing but white space. *)
Definition all_space (s : string) : bool := trim s =? "".

(** *** Calls that can throw *)

(** The outcome of a call that can throw, or of an awaited promise. *)
Inductive outcome (A : Type) : Type :=
| Returned (a : A)
| Thrown (e : value).
Arguments Returned {A} a.
Arguments Thrown {A} e.

(** Sequencing of steps that can throw, [None] standing for the exception. *)
Notation "x <- e ;; k" :=
  (match e with
   | Some x => k
   | None => None
   end)
  (at level 61, e at next level, k at level 200, right associativity,
   only parsing).

End JS.
Import JS.

(** ** [extractApiKey] *)

(** The [Provider] type comes from the application's type module; these are
    the fields the panel reads. [extractApiKey] handles [settingsConfig] both
    as an object and as JSON text, so it is a value here. *)
Record Provider : Type := {
  name : string;
  settingsConfig : value;
  websiteUrl : option string
}.

Section ExtractApiKey.

(** [JSON.parse], a built-in: [None] when it throws [SyntaxError]. *)
Variable JSON_parse : string -> option value.

(** The body of the [try] block, [None] when an exception reaches [catch]. *)
Definition extractApiKey_try (sc : value) (appId : string) : option string :=
  config <- match sc with
            | VString s => JSON_parse s
            | _ => Some sc
            end ;;
  let env := coalesce (get_opt config "env") (VObject []) in
  if appId =? "gemini" then
    key <- get_prop env "GEMINI_API_KEY" ;;
    Some (string_or_empty key)
  else if appId =? "codex" then
    let auth := coalesce (get_opt config "auth") (VObject []) in
    key <- get_prop auth "OPENAI_API_KEY" ;;
    Some (string_or_empty key)
  else
    token <- get_prop env "ANTHROPIC_AUTH_TOKEN" ;;
    apiKey <- get_prop env "ANTHROPIC_API_KEY" ;;
    Some match token with
         | VString token => token
         | _ => string_or_empty apiKey
         end.

Definition extractApiKey (provider : option Provider) (appId : string) : string :=
  match provider with
  | None => ""
  | Some p =>
      if negb (truthy (settingsConfig p)) then ""
      else match extractApiKey_try (settingsConfig p) appId with
           | Some key => key
           | None => ""
           end
  end.

(** The value the code binds to [config]: the settings payload itself when it
    is a truthy non-text value, the parse result when it is non-empty text. *)
Inductive payload (p : Provider) (config : value) : Prop :=
| payload_direct :
    settingsConfig p = config ->
    truthy config = true ->
    (forall s, config <> VString s) ->
    payload p config
| payload_text (s : string) :
    settingsConfig p = VString s ->
    s <> "" ->
    JSON_parse s = Some config ->
    payload p config.

(** [m.k] for a mapping [m]: the value stored under [k], [undefined] when
    there is none. *)
Definition lookup (k : string) (props : list (string * value)) : value :=
  match assoc k props with
  | Some v => v
  | None => VUndefined
  end.

(** A value read as a mapping: its properties, none for any other value. *)
Definition mapping_or_empty (v : value) : list (string * value) :=
  match v with
  | VObject props => props
  | _ => []
  end.

End ExtractApiKey.

(** ** [extractWebsiteUrl], [getModelDisplayName], [getModelColorStyle] *)

Definition DEFAULT_BASE_URL : string := "https://claude.kun8.vip".

(** [extractWebsiteUrl]; an absent and an empty [websiteUrl] are both falsy. *)
Definition extractWebsiteUrl (provider : option Provider) : string :=
  match provider with
  | None => DEFAULT_BASE_URL
  | Some p =>
      match websiteUrl p with
      | None => DEFAULT_BASE_URL
      | Some url =>
          if url =? "" then DEFAULT_BASE_URL
          else if trim url =? "" then DEFAULT_BASE_URL
          else trim url
      end
  end.

Definition getModelDisplayName (model : string) : string :=
  if includes model "opus" then "Opus"
  else if includes model "sonnet" then "Sonnet"
  else if includes model "haiku" then "Haiku"
  else model.

Module ColorStyle.
Record t : Type := {
  bg : string;
  text : string
}.
End ColorStyle.

Definition getModelColorStyle (model : string) : ColorStyle.t :=
  if includes model "opus" then
    {| ColorStyle.bg := "rgba(139, 92, 246, 0.1)"; ColorStyle.text := "#7c3aed" |}
  else if includes model "sonnet" then
    {| ColorStyle.bg := "rgba(59, 130, 246, 0.1)"; ColorStyle.text := "#2563eb" |}
  else if includes model "haiku" then
    {| ColorStyle.bg := "rgba(16, 185, 129, 0.1)"; ColorStyle.text := "#059669" |}
  else
    {| ColorStyle.bg := "rgba(107, 114, 128, 0.1)"; ColorStyle.text := "#4b5563" |}.


(** ** Data received from the usage service *)

Module Costs.
Record t : Type := {
  input : float;
  output : float;
  cacheWrite : float;
  cacheRead : float;
  total : float
}.
End Costs.

Module Formatted.
Record t : Type := {
  input : string;
  output : string;
  cacheWrite : string;
  cacheRead : string;
  total : string
}.
End Formatted.

Module Pricing.
Record t : Type := {
  input : float;
  output : float;
  cacheWrite : float;
  cacheRead : float
}.
End Pricing.

Module ModelStatsItem.
Record t : Type := {
  model : string;
  requests : float;
  inputTokens : float;
  outputTokens : float;
  cacheCreateTokens : float;
  cacheReadTokens : float;
  allTokens : float;
  costs : Costs.t;
  formatted : Formatted.t;
  pricing : Pricing.t
}.
End ModelStatsItem.

Module Limits.
Record t : Type := {
  concurrencyLimit : option float;
  dailyCostLimit : option float;
  totalCostLimit : option float;
  currentDailyCost : option float;
  currentTotalCost : option float;
  weeklyOpusCost : option float
}.
End Limits.

Module UsageLogData.
Record t : Type := {
  name : option string;
  id : string;
  isActive : bool;
  createdAt : string;
  expiresAt : option string;
  limits : option Limits.t
}.
End UsageLogData.

Module UsageLogResult.
Record t : Type := {
  success : bool;
  data : option UsageLogData.t;
  error : option string
}.
End UsageLogResult.

Module ModelStatsResult.
Record t : Type := {
  success : bool;
  data : option (list ModelStatsItem.t);
  period : option string;
  error : option string
}.
End ModelStatsResult.

(** ** The remote-call wrappers [usageLogApi.query] and
       [usageLogApi.queryModelStats] *)
Module usageLogApi.

(** The argument object handed to [invoke]; [baseUrl] is a string or [null]. *)
Record InvokeArgs : Type := {
  apiKey : string;
  baseUrl : option string;
  period : string
}.

(** The two backend commands, indexed by the type [invoke] is instantiated at. *)
Inductive command : Type -> Type :=
| query_api_usage : command UsageLogResult.t
| query_model_stats : command ModelStatsResult.t.

(** [s || d] for an optional string argument [s]. *)
Definition or_else {A : Type} (s : option string) (some : string -> A) (d : A) : A :=
  match s with
  | Some x => if x =? "" then d else some x
  | None => d
  end.

Section Wrappers.

(** The IPC call [invoke] of the host framework, awaited: what the backend
    command resolves to, or what it rejects with. *)
Variable invoke : forall A : Type, command A -> InvokeArgs -> outcome A.

(** [String(v)], a built-in. *)
Variable ToString : value -> string.

(** [typeof error === "string" ? error : String(error)] *)
Definition error_text (error : value) : string :=
  match error with
  | VString s => s
  | _ => ToString error
  end.

Definition invoke_args (apiKey : string) (baseUrl period : option string) : InvokeArgs :=
  {| apiKey := apiKey;
     baseUrl := or_else baseUrl Some None;
     period := or_else period (fun p => p) "daily" |}.

Definition query (apiKey : string) (baseUrl period : option string)
  : outcome UsageLogResult.t :=
  match invoke _ query_api_usage (invoke_args apiKey baseUrl period) with
  | Returned result => Returned result
  | Thrown error =>
      Returned {| UsageLogResult.success := false;
                  UsageLogResult.data := None;
                  UsageLogResult.error := Some (error_text error) |}
  end.

Definition queryModelStats (apiKey : string) (baseUrl period : option string)
  : outcome ModelStatsResult.t :=
  match invoke _ query_model_stats (invoke_args apiKey baseUrl period) with
  | Returned result => Returned result
  | Thrown error =>
      Returned {| ModelStatsResult.success := false;
                  ModelStatsResult.data := None;
                  ModelStatsResult.period := None;
                  ModelStatsResult.error := Some (error_text error) |}
  end.

End Wrappers.
End usageLogApi.

(** ** The panel *)
Module UsageLogPanel.

(** The aggregate shown in the usage card. *)
Module PeriodUsage.
Record t : Type := {
  requests : float;
  inputTokens : float;
  outputTokens : float;
  cacheCreateTokens : float;
  cacheReadTokens : float;
  allTokens : float;
  cost : float
}.
End PeriodUsage.

Inductive Period : Type := daily | monthly.

Definition period_text (p : Period) : string :=
  match p with
  | daily => "daily"
  | monthly => "monthly"
  end.

Section Display.

Variable Number_toString_other : float -> string.

(** [formatTokens]; [None] is an [undefined] or [null] argument. *)
Definition formatTokens (num : option float) : string :=
  match num with
  | None => "-"
  | Some num =>
      if (1000000 <=? num)%float then
        toFixed Number_toString_other (num / 1000000) 2 ++ "M"
      else if (1000 <=? num)%float then
        toFixed Number_toString_other (num / 1000) 1 ++ "K"
      else Number_toString Number_toString_other num
  end.

End Display.

(** [calcProgress]; [None] is an [undefined] argument. *)
Definition calcProgress (current limit : option float) : float :=
  match current, limit with
  | Some current, Some limit =>
      if falsy_number current || falsy_number limit || (limit =? 0)%float then 0%float
      else Math_min (current / limit * 100) 100
  | _, _ => 0%float
  end.

Section Filter.

Variable lower_other : string -> nat -> string.

(** The predicate of the [models] filter. *)
Definition keep_model (appId : string) (m : ModelStatsItem.t) : bool :=
  let model := toLowerCase lower_other (ModelStatsItem.model m) in
  if appId =? "claude" then
    includes model "claude" || includes model "anthropic" || includes model "sonnet"
    || includes model "opus" || includes model "haiku"
  else if appId =? "codex" then
    includes model "gpt" || includes model "o1" || includes model "o3"
    || includes model "o4"
  else if appId =? "gemini" then includes model "gemini"
  else true.

(** [models]: [allModels] filtered by [appId]. *)
Definition models (appId : string) (allModels : list ModelStatsItem.t)
  : list ModelStatsItem.t :=
  filter (keep_model appId) allModels.

End Filter.

(** [allModelsCost] *)
Definition allModelsCost (allModels : list ModelStatsItem.t) : float :=
  fold_left (fun sum m => (sum + Costs.total (ModelStatsItem.costs m))%float)
            allModels 0%float.

(** The callback of the [periodUsage] reduction. *)
Definition add_item (acc : PeriodUsage.t) (m : ModelStatsItem.t) : PeriodUsage.t :=
  {| PeriodUsage.requests := PeriodUsage.requests acc + ModelStatsItem.requests m;
     PeriodUsage.inputTokens := PeriodUsage.inputTokens acc + ModelStatsItem.inputTokens m;
     PeriodUsage.outputTokens := PeriodUsage.outputTokens acc + ModelStatsItem.outputTokens m;
     PeriodUsage.cacheCreateTokens :=
       PeriodUsage.cacheCreateTokens acc + ModelStatsItem.cacheCreateTokens m;
     PeriodUsage.cacheReadTokens :=
       PeriodUsage.cacheReadTokens acc + ModelStatsItem.cacheReadTokens m;
     PeriodUsage.allTokens := PeriodUsage.allTokens acc + ModelStatsItem.allTokens m;
     PeriodUsage.cost := PeriodUsage.cost acc + Costs.total (ModelStatsItem.costs m) |}%float.

Definition no_usage : PeriodUsage.t :=
  {| PeriodUsage.requests := 0;
     PeriodUsage.inputTokens := 0;
     PeriodUsage.outputTokens := 0;
     PeriodUsage.cacheCreateTokens := 0;
     PeriodUsage.cacheReadTokens := 0;
     PeriodUsage.allTokens := 0;
     PeriodUsage.cost := 0 |}%float.

(** [periodUsage], as a function of the filtered list; [None] is [null]. *)
Definition periodUsage (models : list ModelStatsItem.t) : option PeriodUsage.t :=
  if (0 <? List.length models)%nat then Some (fold_left add_item models no_usage)
  else None.

(** *** Component state and [handleQuery] *)

Record State : Type := {
  isLoading : bool;
  result : option UsageLogResult.t;
  modelStats : option ModelStatsResult.t;
  period : Period
}.

(** Calls of the state setters, in program order. *)
Inductive update : Type :=
| setIsLoading (b : bool)
| setResult (r : option UsageLogResult.t)
| setModelStats (m : option ModelStatsResult.t)
| setPeriod (p : Period).

Definition apply_update (st : State) (u : update) : State :=
  match u with
  | setIsLoading b =>
      {| isLoading := b; result := result st; modelStats := modelStats st;
         period := period st |}
  | setResult r =>
      {| isLoading := isLoading st; result := r; modelStats := modelStats st;
         period := period st |}
  | setModelStats m =>
      {| isLoading := isLoading st; result := result st; modelStats := m;
         period := period st |}
  | setPeriod p =>
      {| isLoading := isLoading st; result := result st;
         modelStats := modelStats st; period := p |}
  end.

Definition run (us : list update) (st : State) : State := fold_left apply_update us st.

(** [await Promise.all([a, b])] on two settled promises: both values, or the
    rejection (of the first in array order when both reject). *)
Definition Promise_all {A B : Type} (a : outcome A) (b : outcome B) : outcome (A * B) :=
  match a, b with
  | Returned x, Returned y => Returned (x, y)
  | Thrown e, _ => Thrown e
  | _, Thrown e => Thrown e
  end.

Section Handlers.

Variable invoke : forall A : Type, usageLogApi.command A -> usageLogApi.InvokeArgs -> outcome A.
Variable ToString : value -> string.

(** The setter calls of one run of [handleQuery], for the [apiKey], [baseUrl]
    and [period] of the render it closes over. *)
Definition handleQuery (apiKey baseUrl : string) (period : Period) : list update :=
  if all_space apiKey then []
  else
    setIsLoading true ::
    match Promise_all
            (usageLogApi.query invoke ToString apiKey (Some baseUrl)
               (Some (period_text period)))
            (usageLogApi.queryModelStats invoke ToString apiKey (Some baseUrl)
               (Some (period_text period))) with
    | Returned (userResult, modelResult) =>
        [setResult (Some userResult); setModelStats (Some modelResult)]
    | Thrown error =>
        [setResult (Some {| UsageLogResult.success := false;
                            UsageLogResult.data := None;
                            UsageLogResult.error := Some (ToString error) |});
         setModelStats None]
    end ++ [setIsLoading false].

(** The setter calls of one run of [handlePeriodChange]. *)
Definition handlePeriodChange (apiKey baseUrl : string) (newPeriod : Period)
  : list update :=
  setPeriod newPeriod ::
  if apiKey =? "" then []
  else
    setIsLoading true ::
    match Promise_all
            (usageLogApi.query invoke ToString apiKey (Some baseUrl)
               (Some (period_text newPeriod)))
            (usageLogApi.queryModelStats invoke ToString apiKey (Some baseUrl)
               (Some (period_text newPeriod))) with
    | Returned (userResult, modelResult) =>
        [setResult (Some userResult); setModelStats (Some modelResult)]
    | Thrown error =>
        [setResult (Some {| UsageLogResult.success := false;
                            UsageLogResult.data := None;
                            UsageLogResult.error := Some (ToString error) |});
         setModelStats None]
    end ++ [setIsLoading false].

(** The setter calls of the effect that runs when [apiKey] or [baseUrl]
    changes. *)
Definition key_effect (apiKey baseUrl : string) (period : Period) : list update :=
  if apiKey =? "" then [setResult None; setModelStats None]
  else handleQuery apiKey baseUrl period.

End Handlers.

(** *** What a render shows *)

Record View : Type := {
  loadingShown : bool;
  errorShown : option string;
  notConfiguredShown : bool;
  dataShown : option UsageLogData.t;
  usageCard : option PeriodUsage.t;
  modelCards : list ModelStatsItem.t
}.

Section Render.

Variable lower_other : string -> nat -> string.

(** The translation function of the i18n library, by key and default text. *)
Variable t : string -> string -> string.

Definition render (appId apiKey : string) (st : State) : View :=
  let data :=
    match result st with
    | Some r => UsageLogResult.data r
    | None => None
    end in
  let allModels :=
    match modelStats st with
    | Some ms => match ModelStatsResult.data ms with Some l => l | None => [] end
    | None => []
    end in
  let models := models lower_other appId allModels in
  let periodUsage := periodUsage models in
  let succeeded :=
    match result st with
    | Some r => UsageLogResult.success r
    | None => false
    end in
  let data_section :=
    if negb (isLoading st) && succeeded then data else None in
  {| loadingShown := isLoading st;
     errorShown :=
       match result st with
       | Some r =>
           if negb (isLoading st) && negb (UsageLogResult.success r) then
             Some (usageLogApi.or_else (UsageLogResult.error r) (fun e => e)
                     (t "usageLog.error.unknown" "未知错误"))
           else None
       | None => None
       end;
     notConfiguredShown :=
       negb (isLoading st)
       && match result st with Some _ => false | None => true end
       && (apiKey =? "");
     dataShown := data_section;
     usageCard := match data_section with Some _ => periodUsage | None => None end;
     modelCards := match data_section with Some _ => models | None => [] end |}.

End Render.

End UsageLogPanel.
Import UsageLogPanel.

(** ** Notions the statements below are phrased with *)

(** [kept P l l']: [l'] consists of exactly the items of [l] that satisfy [P],
    each as often as in [l] and in the order of [l]. *)
Inductive kept {A : Type} (P : A -> Prop) : list A -> list A -> Prop :=
| kept_nil : kept P [] []
| kept_take (x : A) (l l' : list A) : P x -> kept P l l' -> kept P (x :: l) (x :: l')
| kept_drop (x : A) (l l' : list A) : ~ P x -> kept P l l' -> kept P (x :: l) l'.

(** A character of an identifier matches a character of a keyword when it
    is that character or, the latter being a small letter, its capital. *)
Inductive letter_match (c k : ascii) : Prop :=
| letter_same : c = k -> letter_match c k
| letter_capital :
    (97 <= N_of_ascii k <= 122)%N -> (N_of_ascii c + 32 = N_of_ascii k)%N ->
    letter_match c k.

(** Two texts that match character by character. *)
Inductive text_match : string -> string -> Prop :=
| text_match_nil : text_match "" ""
| text_match_cons (c k : ascii) (s kw : string) :
    letter_match c k -> text_match s kw -> text_match (String c s) (String k kw).

(** [id] contains [kw] as a substring, letter case of [id] apart. *)
Definition contains_ci (id kw : string) : Prop :=
  exists pre mid suf, id = pre ++ mid ++ suf /\ text_match mid kw.

(** [s] contains [kw] as a substring. *)
Definition occurs (kw s : string) : Prop := exists pre suf, s = pre ++ kw ++ suf.

(** A text of ASCII characters. *)
Fixpoint ascii_text (s : string) : bool :=
  match s with
  | EmptyString => true
  | String c rest => (N_of_ascii c <? 128)%N && ascii_text rest
  end.

(** A text of ASCII characters none of which is a capital letter. *)
Fixpoint plain_text (s : string) : bool :=
  match s with
  | EmptyString => true
  | String c rest =>
      (N_of_ascii c <? 128)%N
      && negb ((65 <=? N_of_ascii c)%N && (N_of_ascii c <=? 90)%N)
      && plain_text rest
  end.

(** The ASCII lower-casing of a text, byte by byte. *)
Fixpoint lower_ascii (s : string) : string :=
  match s with
  | EmptyString => EmptyString
  | String c rest => String (lower_char c) (lower_ascii rest)
  end.

(** The keywords of an application's model family; [None] for an application
    without one. *)
Definition family (appId : string) : option (list string) :=
  if appId =? "claude" then Some ["claude"; "anthropic"; "sonnet"; "opus"; "haiku"]
  else if appId =? "codex" then Some ["gpt"; "o1"; "o3"; "o4"]
  else if appId =? "gemini" then Some ["gemini"]
  else None.

(** An item whose lower-cased identifier contains a keyword of the
    application's family; every item for an application without one. *)
Definition relevant (lower_other : string -> nat -> string) (appId : string)
  (m : ModelStatsItem.t) : Prop :=
  match family appId with
  | Some kws =>
      exists kw, In kw kws /\ occurs kw (toLowerCase lower_other (ModelStatsItem.model m))
  | None => True
  end.

(** The binary64 sum of a field over a list, added from zero in list order. *)
Definition float_sum (f : ModelStatsItem.t -> float) (l : list ModelStatsItem.t) : float :=
  fold_left PrimFloat.add (map f l) 0%float.

(** The exact integer total of a counter over a list. *)
Definition total_of (f : ModelStatsItem.t -> float) (l : list ModelStatsItem.t) : Z :=
  fold_right Z.add 0%Z (map (fun m => count (f m)) l).

(** A number that is a non-negative integer. *)
Definition is_count (x : float) : Prop := (0 <= count x)%Z /\ x = number (count x).

(** [v * 2^k] *)
Definition shl (v : positive) (k : nat) : positive := Nat.iter k xO v.

(** The number of binary digits of [v]. *)
Definition width (v : positive) : nat := Pos.to_nat (digits2_pos v).

(** The binary64 datum of a positive integer below 2^53: the mantissa scaled
    to 53 digits. *)
Definition canon (v : positive) : spec_float :=
  S754_finite false (shl v (53 - width v)) (- Z.of_nat (53 - width v)).

(** The binary64 sum of the total costs of a list, added from zero in list
    order. *)
Definition cost_of (l : list ModelStatsItem.t) : float :=
  fold_left PrimFloat.add (map (fun m => Costs.total (ModelStatsItem.costs m)) l) 0%float.

(** Two aggregates with the same six counters. *)
Definition same_counters (u v : PeriodUsage.t) : Prop :=
  PeriodUsage.requests u = PeriodUsage.requests v
  /\ PeriodUsage.inputTokens u = PeriodUsage.inputTokens v
  /\ PeriodUsage.outputTokens u = PeriodUsage.outputTokens v
  /\ PeriodUsage.cacheCreateTokens u = PeriodUsage.cacheCreateTokens v
  /\ PeriodUsage.cacheReadTokens u = PeriodUsage.cacheReadTokens v
  /\ PeriodUsage.allTokens u = PeriodUsage.allTokens v.

Definition both_or_neither {A : Type} (R : A -> A -> Prop) (x y : option A) : Prop :=
  match x, y with
  | Some a, Some b => R a b
  | None, None => True
  | _, _ => False
  end.





(** The mapping [props] holds [v] under the name [k]: its first entry of that
    name is [(k, v)]. *)
Inductive stored (k : string) (v : value) : list (string * value) -> Prop :=
| stored_here (rest : list (string * value)) : stored k v ((k, v) :: rest)
| stored_later (k' : string) (v' : value) (rest : list (string * value)) :
    k' <> k -> stored k v rest -> stored k v ((k', v') :: rest).

(** An item whose six counters are non-negative integers. *)
Definition counted (m : ModelStatsItem.t) : Prop :=
  is_count (ModelStatsItem.requests m)
  /\ is_count (ModelStatsItem.inputTokens m)
  /\ is_count (ModelStatsItem.outputTokens m)
  /\ is_count (ModelStatsItem.cacheCreateTokens m)
  /\ is_count (ModelStatsItem.cacheReadTokens m)
  /\ is_count (ModelStatsItem.allTokens m).

(** A list whose six exact totals are below 2^53, the range in which binary64
    holds every integer. *)
Definition within_safe (l : list ModelStatsItem.t) : Prop :=
  (total_of ModelStatsItem.requests l < 2 ^ 53
   /\ total_of ModelStatsItem.inputTokens l < 2 ^ 53
   /\ total_of ModelStatsItem.outputTokens l < 2 ^ 53
   /\ total_of ModelStatsItem.cacheCreateTokens l < 2 ^ 53
   /\ total_of ModelStatsItem.cacheReadTokens l < 2 ^ 53
   /\ total_of ModelStatsItem.allTokens l < 2 ^ 53)%Z.

(** [u] is at most [v] in each of the six counters. *)
Definition counters_le (u v : PeriodUsage.t) : Prop :=
  (PeriodUsage.requests u <=? PeriodUsage.requests v)%float = true
  /\ (PeriodUsage.inputTokens u <=? PeriodUsage.inputTokens v)%float = true
  /\ (PeriodUsage.outputTokens u <=? PeriodUsage.outputTokens v)%float = true
  /\ (PeriodUsage.cacheCreateTokens u <=? PeriodUsage.cacheCreateTokens v)%float = true
  /\ (PeriodUsage.cacheReadTokens u <=? PeriodUsage.cacheReadTokens v)%float = true
  /\ (PeriodUsage.allTokens u <=? PeriodUsage.allTokens v)%float = true.

(** The number of the four top-level sections a view shows. *)
Definition shown_sections (v : View) : nat :=
  (if loadingShown v then 1 else 0)
  + (match errorShown v with Some _ => 1 | None => 0 end)
  + (if notConfiguredShown v then 1 else 0)
  + (match dataShown v with Some _ => 1 | None => 0 end).

(** The four places a credential is read from: the [env] and [auth] mappings
    of a payload under the four variable names. *)
Definition credential_slots (config : value) : list value :=
  let env := mapping_or_empty (get_opt config "env") in
  let auth := mapping_or_empty (get_opt config "auth") in
  [lookup "GEMINI_API_KEY" env; lookup "OPENAI_API_KEY" auth;
   lookup "ANTHROPIC_AUTH_TOKEN" env; lookup "ANTHROPIC_API_KEY" env].

(** ** Sample data *)

(** An item with the given identifier, request count, token counts and total
    cost; the remaining fields do not enter any computation of the panel. *)
Definition item (model : string) (requests inputTokens outputTokens : Z) (total : float)
  : ModelStatsItem.t :=
  {| ModelStatsItem.model := model;
     ModelStatsItem.requests := number requests;
     ModelStatsItem.inputTokens := number inputTokens;
     ModelStatsItem.outputTokens := number outputTokens;
     ModelStatsItem.cacheCreateTokens := 0;
     ModelStatsItem.cacheReadTokens := 0;
     ModelStatsItem.allTokens := number (inputTokens + outputTokens);
     ModelStatsItem.costs :=
       {| Costs.input := 0; Costs.output := 0; Costs.cacheWrite := 0;
          Costs.cacheRead := 0; Costs.total := total |};
     ModelStatsItem.formatted :=
       {| Formatted.input := "$0"; Formatted.output := "$0";
          Formatted.cacheWrite := "$0"; Formatted.cacheRead := "$0";
          Formatted.total := "$0" |};
     ModelStatsItem.pricing :=
       {| Pricing.input := 0; Pricing.output := 0; Pricing.cacheWrite := 0;
          Pricing.cacheRead := 0 |} |}.

(** Lower-casing that leaves every byte outside ASCII in place, as Unicode
    does for the scripts without letter case. *)
Definition keep_other (s : string) (i : nat) : string :=
  match String.get i s with
  | Some c => String c EmptyString
  | None => EmptyString
  end.

(** Unicode lower-casing on texts whose only character outside ASCII is the
    Kelvin sign U+212A (bytes 226, 132, 170), which lower-cases to [k]. *)
Definition kelvin_lower (s : string) (i : nat) : string :=
  match String.get i s with
  | Some c => if (N_of_ascii c =? 226)%N then "k" else ""
  | None => ""
  end.

(** [HAI], the Kelvin sign, [U]. *)
Definition kelvin_id : string :=
  "HAI" ++ String (ascii_of_nat 226) (String (ascii_of_nat 132)
             (String (ascii_of_nat 170) "U")).

Definition opus_item : ModelStatsItem.t := item "claude-3-opus" 10 100 50 1.5.
Definition gpt_item : ModelStatsItem.t := item "gpt-4o" 5 40 20 0.25.
Definition sonnet_item : ModelStatsItem.t := item "Claude-Sonnet-4" 3 30 10 0.1.
Definition haiku_item : ModelStatsItem.t := item "claude-haiku" 2 20 10 0.2.
Definition gemini_item : ModelStatsItem.t := item "gemini-pro" 1 10 5 0.3.

(** A provider whose settings are an object, as the provider store hands
    them over. *)
Definition claude_provider : Provider :=
  {| name := "relay";
     settingsConfig :=
       VObject [("env", VObject [("ANTHROPIC_AUTH_TOKEN", VString "sk-token");
                                 ("ANTHROPIC_API_KEY", VString "sk-key");
                                 ("GEMINI_API_KEY", VNumber 7)]);
                ("auth", VObject [("OPENAI_API_KEY", VString "sk-openai")])];
     websiteUrl := None |}.

(** A provider for Gemini, with a key that is a string. *)
Definition gemini_provider : Provider :=
  {| name := "gemini relay";
     settingsConfig := VObject [("env", VObject [("GEMINI_API_KEY", VString "g-key")])];
     websiteUrl := None |}.

(** A provider with an API key only, and with [auth] settings that are not a
    mapping. *)
Definition key_provider : Provider :=
  {| name := "key only";
     settingsConfig :=
       VObject [("auth", VNull);
                ("env", VObject [("ANTHROPIC_AUTH_TOKEN", VNull);
                                 ("ANTHROPIC_API_KEY", VString "sk-key")])];
     websiteUrl := None |}.

(** A provider whose settings are text that is not JSON. *)
Definition broken_provider : Provider :=
  {| name := "broken"; settingsConfig := VString "{env:"; websiteUrl := None |}.

(** [JSON.parse] on the two texts ["{}"] and ["null"]; the other texts used
    below are malformed. *)
Definition sample_parse (s : string) : option value :=
  if s =? "{}" then Some (VObject [])
  else if s =? "null" then Some VNull
  else None.

(** [String(v)] on the values that are not numbers or arrays. *)
Definition sample_ToString (v : value) : string :=
  match v with
  | VUndefined => "undefined"
  | VNull => "null"
  | VBool b => if b then "true" else "false"
  | VString s => s
  | VObject _ => "[object Object]"
  | VNumber _ | VArray _ => ""
  end.

(** A translation table without entries: every key shows its default text. *)
Definition sample_t (key default : string) : string := default.

Definition sample_data : UsageLogData.t :=
  {| UsageLogData.name := Some "team key";
     UsageLogData.id := "k1";
     UsageLogData.isActive := true;
     UsageLogData.createdAt := "2025-01-01T00:00:00Z";
     UsageLogData.expiresAt := None;
     UsageLogData.limits := None |}.

(** A backend whose overview command answers [success = false] while the
    per-model command succeeds. *)
Definition overview_refused (A : Type) (c : usageLogApi.command A)
  : usageLogApi.InvokeArgs -> outcome A :=
  match c in usageLogApi.command T return usageLogApi.InvokeArgs -> outcome T with
  | usageLogApi.query_api_usage => fun _ =>
      Returned {| UsageLogResult.success := false;
                  UsageLogResult.data := None;
                  UsageLogResult.error := Some "invalid key" |}
  | usageLogApi.query_model_stats => fun _ =>
      Returned {| ModelStatsResult.success := true;
                  ModelStatsResult.data := Some [opus_item];
                  ModelStatsResult.period := Some "daily";
                  ModelStatsResult.error := None |}
  end.

(** A backend whose overview command succeeds while the per-model command
    rejects. *)
Definition stats_rejected (A : Type) (c : usageLogApi.command A)
  : usageLogApi.InvokeArgs -> outcome A :=
  match c in usageLogApi.command T return usageLogApi.InvokeArgs -> outcome T with
  | usageLogApi.query_api_usage => fun _ =>
      Returned {| UsageLogResult.success := true;
                  UsageLogResult.data := Some sample_data;
                  UsageLogResult.error := None |}
  | usageLogApi.query_model_stats => fun _ => Thrown (VString "timeout")
  end.

Definition idle : State :=
  {| isLoading := false; result := None; modelStats := None; period := daily |}.

(** A state in which a fetch is in flight over the result of an earlier
    one. *)
Definition loading_state : State :=
  {| isLoading := true;
     result := Some {| UsageLogResult.success := true;
                       UsageLogResult.data := Some sample_data;
                       UsageLogResult.error := None |};
     modelStats := None;
     period := daily |}.

(** A provider whose settings are the JSON text of the empty object and whose
    website URL is blank. *)
Definition text_provider : Provider :=
  {| name := "text"; settingsConfig := VString "{}"; websiteUrl := Some "  " |}.

(** A provider whose settings are the empty object. *)
Definition empty_provider : Provider :=
  {| name := "empty"; settingsConfig := VObject []; websiteUrl := Some "" |}.

(** A backend that answers like [overview_refused] for one key and rejects
    every other call. *)
Definition single_key_backend (A : Type) (c : usageLogApi.command A)
  (args : usageLogApi.InvokeArgs) : outcome A :=
  if usageLogApi.apiKey args =? "sk-token" then overview_refused A c args
  else Thrown (VString "unknown key").

(** * Properties *)

(** ** Strings *)

Lemma prefix_iff (kw s : string) :
  prefix kw s = true <-> exists suf, s = kw ++ suf.
Proof.
  revert s. induction kw as [|c kw IH]; intros s.
  - split; [intros _; now exists s | intros _; now destruct s].
  - destruct s as [|d s]; simpl.
    + split; [discriminate | intros [suf H]; discriminate].
    + destruct (ascii_dec c d) as [->|Hne].
      * rewrite IH. split; intros [suf H]; exists suf.
        -- now rewrite H.
        -- now inversion H.
      * split; [discriminate | intros [suf H]; inversion H; congruence].
Qed.

Lemma includes_iff (s kw : string) :
  includes s kw = true <-> exists pre suf, s = pre ++ kw ++ suf.
Proof.
  induction s as [|c s IH].
  - change (includes "" kw) with (prefix kw "" || false).
    rewrite orb_false_r, prefix_iff. split.
    + intros [suf H]. now exists "", suf.
    + intros [pre [suf H]]. destruct pre; [now exists suf | discriminate].
  - change (includes (String c s) kw) with (prefix kw (String c s) || includes s kw).
    rewrite orb_true_iff, prefix_iff, IH. split.
    + intros [[suf H] | [pre [suf H]]].
      * now exists "", suf.
      * exists (String c pre), suf. simpl. now rewrite H.
    + intros [pre [suf H]]. destruct pre as [|d pre]; simpl in H.
      * left. now exists suf.
      * right. exists pre, suf. now inversion H.
Qed.

Lemma append_assoc (a b c : string) : (a ++ b) ++ c = a ++ b ++ c.
Proof. induction a as [|x a IH]; simpl; [reflexivity | now rewrite IH]. Qed.


Section LowerCaseFacts.
Variable lower_other : string -> nat -> string.

Lemma lower_from_app (whole : string) (i : nat) (a b : string) :
  lower_from lower_other whole i (a ++ b)
  = lower_from lower_other whole i a
    ++ lower_from lower_other whole (i + String.length a) b.
Proof.
  revert i. induction a as [|c a IH]; intros i; simpl.
  - now rewrite Nat.add_0_r.
  - replace (i + S (String.length a))%nat with (S i + String.length a)%nat by lia.
    now rewrite IH, append_assoc.
Qed.

Lemma lower_from_ascii (whole : string) (i : nat) (s : string) :
  ascii_text s = true -> lower_from lower_other whole i s = lower_ascii s.
Proof.
  revert i. induction s as [|c s IH]; intros i H; simpl in *; [reflexivity |].
  apply andb_true_iff in H. destruct H as [Hc Hs]. rewrite Hc. simpl.
  now rewrite IH.
Qed.

End LowerCaseFacts.

Lemma lower_char_match (c k : ascii) :
  (N_of_ascii k <? 128)%N
  && negb ((65 <=? N_of_ascii k)%N && (N_of_ascii k <=? 90)%N) = true ->
  letter_match c k ->
  (N_of_ascii c <? 128)%N = true /\ lower_char c = k.
Proof.
  intros Hk [-> | Hrange Hcap].
  - apply andb_true_iff in Hk. destruct Hk as [Hk Hn]. split; [exact Hk |].
    unfold lower_char. apply negb_true_iff in Hn. cbv zeta. now rewrite Hn.
  - split; [apply N.ltb_lt; lia |].
    unfold lower_char. cbv zeta.
    assert (((65 <=? N_of_ascii c) && (N_of_ascii c <=? 90))%N = true) as ->.
    { apply andb_true_iff. split; apply N.leb_le; lia. }
    rewrite Hcap. apply ascii_N_embedding.
Qed.

Lemma text_match_lower (mid kw : string) :
  plain_text kw = true -> text_match mid kw ->
  ascii_text mid = true /\ lower_ascii mid = kw.
Proof.
  intros Hkw H. induction H as [|c k s kw Hc _ IH]; [now split |].
  simpl in Hkw. apply andb_true_iff in Hkw. destruct Hkw as [Hk Hrest].
  destruct (lower_char_match c k Hk Hc) as [Hc1 Hc2].
  destruct (IH Hrest) as [Hs1 Hs2]. simpl. now rewrite Hc1, Hc2, Hs1, Hs2.
Qed.

Lemma letter_match_lower (c : ascii) :
  (N_of_ascii c <? 128)%N = true -> letter_match c (lower_char c).
Proof.
  intros Hc. unfold lower_char. cbv zeta.
  destruct ((65 <=? N_of_ascii c) && (N_of_ascii c <=? 90))%N eqn:E.
  - apply andb_true_iff in E. destruct E as [E1 E2].
    apply N.leb_le in E1, E2.
    assert (N_of_ascii (ascii_of_N (N_of_ascii c + 32)) = N_of_ascii c + 32)%N as Hn
      by (apply N_ascii_embedding; lia).
    apply letter_capital; rewrite Hn; lia.
  - now apply letter_same.
Qed.

Lemma lower_text_match (s : string) :
  ascii_text s = true -> text_match s (lower_ascii s).
Proof.
  induction s as [|c s IH]; intros H; simpl in *; [constructor |].
  apply andb_true_iff in H. destruct H as [Hc Hs].
  constructor; [now apply letter_match_lower | now apply IH].
Qed.

Lemma ascii_text_app (a b : string) :
  ascii_text (a ++ b) = ascii_text a && ascii_text b.
Proof. induction a as [|c a IH]; simpl; [reflexivity | now rewrite IH, andb_assoc]. Qed.

Lemma lower_ascii_split (s x y : string) :
  lower_ascii s = x ++ y ->
  exists a b, s = a ++ b /\ lower_ascii a = x /\ lower_ascii b = y.
Proof.
  revert s. induction x as [|c x IH]; intros s H; simpl in H.
  - now exists "", s.
  - destruct s as [|d s]; [discriminate |]. simpl in H. inversion H as [[Hc Hs]].
    destruct (IH _ Hs) as [a [b [-> [Ha Hb]]]].
    exists (String d a), b. simpl. now rewrite Ha.
Qed.

Section IncludesLower.
Variable lower_other : string -> nat -> string.

(** An identifier that contains a keyword, letter case apart, contains it
    after lower-casing, whatever else the identifier holds. *)
Lemma contains_ci_includes (id kw : string) :
  plain_text kw = true -> contains_ci id kw ->
  includes (toLowerCase lower_other id) kw = true.
Proof.
  intros Hkw [pre [mid [suf [Hid Hmid]]]].
  destruct (text_match_lower mid kw Hkw Hmid) as [Hascii Hlow].
  apply includes_iff. unfold toLowerCase. subst id.
  rewrite !lower_from_app.
  rewrite (lower_from_ascii lower_other _ _ mid Hascii), Hlow. eauto.
Qed.

(** For an ASCII identifier the converse holds. *)
Lemma includes_contains_ci (id kw : string) :
  ascii_text id = true ->
  includes (toLowerCase lower_other id) kw = true -> contains_ci id kw.
Proof.
  intros Hid H. unfold toLowerCase in H. rewrite lower_from_ascii in H by exact Hid.
  apply includes_iff in H. destruct H as [pre [suf H]].
  destruct (lower_ascii_split _ _ _ H) as [a [r [-> [Ha Hr]]]].
  destruct (lower_ascii_split _ _ _ Hr) as [b [c [-> [Hb Hc]]]].
  exists a, b, c. split; [reflexivity |].
  rewrite !ascii_text_app in Hid.
  apply andb_true_iff in Hid. destruct Hid as [_ Hid].
  apply andb_true_iff in Hid. destruct Hid as [Hb' _].
  rewrite <- Hb. now apply lower_text_match.
Qed.

End IncludesLower.

(** ** The [models] filter *)

Lemma family_plain (appId : string) (kws : list string) (kw : string) :
  family appId = Some kws -> In kw kws -> plain_text kw = true.
Proof.
  unfold family. intros H Hin.
  destruct (appId =? "claude");
    [|destruct (appId =? "codex"); [|destruct (appId =? "gemini")]];
    inversion H; subst kws; simpl in Hin; intuition (subst; reflexivity).
Qed.

Section FilterProperties.

Variable lower_other : string -> nat -> string.

Lemma keep_model_iff (appId : string) (m : ModelStatsItem.t) :
  keep_model lower_other appId m = true <-> relevant lower_other appId m.
Proof.
  unfold keep_model, relevant, family, occurs.
  destruct (appId =? "claude"); [|destruct (appId =? "codex"); [|destruct (appId =? "gemini")]].
  all: rewrite ?orb_true_iff, ?includes_iff.
  - split.
    + intros [[[[H|H]|H]|H]|H]; eexists; (split; [|exact H]); simpl; tauto.
    + intros [kw [Hin H]]. simpl in Hin.
      destruct Hin as [<-|[<-|[<-|[<-|[<-|[]]]]]]; tauto.
  - split.
    + intros [[[H|H]|H]|H]; eexists; (split; [|exact H]); simpl; tauto.
    + intros [kw [Hin H]]. simpl in Hin.
      destruct Hin as [<-|[<-|[<-|[<-|[]]]]]; tauto.
  - split.
    + intros H. eexists; (split; [|exact H]); simpl; tauto.
    + intros [kw [Hin H]]. simpl in Hin. destruct Hin as [<-|[]]. exact H.
  - tauto.
Qed.

(** The filter is blind to letter case: an identifier that contains a keyword
    of the family in any mix of capital and small letters is kept. *)
Lemma keep_model_ci (appId : string) (m : ModelStatsItem.t) (kws : list string) (kw : string) :
  family appId = Some kws -> In kw kws ->
  contains_ci (ModelStatsItem.model m) kw ->
  keep_model lower_other appId m = true.
Proof.
  intros Hfam Hin Hci. apply keep_model_iff. unfold relevant. rewrite Hfam.
  exists kw. split; [exact Hin |]. apply includes_iff.
  apply contains_ci_includes; [exact (family_plain _ _ _ Hfam Hin) | exact Hci].
Qed.

(** For an ASCII identifier nothing else is kept. *)
Lemma keep_model_ascii (appId : string) (m : ModelStatsItem.t) (kws : list string) :
  ascii_text (ModelStatsItem.model m) = true -> family appId = Some kws ->
  (keep_model lower_other appId m = true
   <-> exists kw, In kw kws /\ contains_ci (ModelStatsItem.model m) kw).
Proof.
  intros Hascii Hfam. split.
  - intros H. apply keep_model_iff in H. unfold relevant in H. rewrite Hfam in H.
    destruct H as [kw [Hin H]]. exists kw. split; [exact Hin |].
    apply (includes_contains_ci lower_other); [exact Hascii |].
    apply includes_iff. exact H.
  - intros [kw [Hin H]]. now apply keep_model_ci with kws kw.
Qed.

End FilterProperties.

Lemma filter_kept {A : Type} (f : A -> bool) (P : A -> Prop) :
  (forall x, f x = true <-> P x) ->
  forall l, kept P l (filter f l).
Proof.
  intros Hf l. induction l as [|x l IH]; simpl.
  - constructor.
  - destruct (f x) eqn:E.
    + apply kept_take; [now apply Hf | exact IH].
    + apply kept_drop; [|exact IH]. intros HP. apply Hf in HP. congruence.
Qed.

Lemma kept_unique {A : Type} (P : A -> Prop) (l l1 l2 : list A) :
  kept P l l1 -> kept P l l2 -> l1 = l2.
Proof.
  intros H1. revert l2. induction H1; intros l2 H2; inversion H2; subst;
    try reflexivity; try contradiction.
  - f_equal. now apply IHkept.
  - now apply IHkept.
Qed.

(** C3. For every application identifier and every list of model statistics,
    the [models] filter keeps, in the order of the input, exactly the items
    whose model identifier contains, letter case apart, one of the keywords
    of the application's family (claude: claude, anthropic, sonnet, opus,
    haiku; codex: gpt, o1, o3, o4; gemini: gemini), and keeps every item for
    any other application. The test is made on the lower-cased identifier: an
    identifier that contains a keyword in any mix of capital and small ASCII
    letters is kept, and an ASCII identifier is kept only then. *)
Theorem models_keeps_family
  (lower_other : string -> nat -> string)
  (appId : string) (allModels : list ModelStatsItem.t) :
  kept (relevant lower_other appId) allModels (models lower_other appId allModels)
  /\ (forall l, kept (relevant lower_other appId) allModels l ->
      l = models lower_other appId allModels)
  /\ (forall m, In m (models lower_other appId allModels)
                <-> In m allModels /\ relevant lower_other appId m)
  /\ (family appId = None -> models lower_other appId allModels = allModels)
  /\ (forall m kws kw,
        In m allModels -> family appId = Some kws -> In kw kws ->
        contains_ci (ModelStatsItem.model m) kw ->
        In m (models lower_other appId allModels))
  /\ (forall m kws,
        In m allModels -> ascii_text (ModelStatsItem.model m) = true ->
        family appId = Some kws ->
        (In m (models lower_other appId allModels)
         <-> exists kw, In kw kws /\ contains_ci (ModelStatsItem.model m) kw)).
Proof.
  assert (kept (relevant lower_other appId) allModels (models lower_other appId allModels))
    as Hkept.
  { apply filter_kept. intros m. apply keep_model_iff. }
  split; [exact Hkept | split; [|split; [|split; [|split]]]].
  - intros l Hl. exact (kept_unique _ _ _ _ Hl Hkept).
  - intros m. unfold models. rewrite filter_In, keep_model_iff. tauto.
  - intros Hnone. clear Hkept. unfold models. induction allModels as [|m l IH]; simpl.
    + reflexivity.
    + assert (keep_model lower_other appId m = true) as ->.
      { apply keep_model_iff. unfold relevant. now rewrite Hnone. }
      now rewrite IH.
  - intros m kws kw Hin Hfam Hkw Hci. unfold models. apply filter_In.
    split; [exact Hin |]. now apply keep_model_ci with kws kw.
  - intros m kws Hin Hascii Hfam. unfold models. rewrite filter_In.
    rewrite (keep_model_ascii lower_other appId m kws Hascii Hfam). tauto.
Qed.

(** C8. Filtering an already filtered list for the same application returns
    it unchanged. *)
Theorem models_idempotent
  (lower_other : string -> nat -> string)
  (appId : string) (allModels : list ModelStatsItem.t) :
  models lower_other appId (models lower_other appId allModels)
  = models lower_other appId allModels.
Proof.
  unfold models. induction allModels as [|m l IH]; simpl.
  - reflexivity.
  - destruct (keep_model lower_other appId m) eqn:E; simpl.
    + now rewrite E, IH.
    + exact IH.
Qed.

(** ** Binary64 addition *)

Lemma float_add_comm (x y : float) : (x + y)%float = (y + x)%float.
Proof.
  apply Prim2SF_inj. rewrite !add_spec.
  destruct (Prim2SF x) as [sx|sx| |sx mx ex], (Prim2SF y) as [sy|sy| |sy my ey];
    try reflexivity; try (destruct sx, sy; reflexivity).
  unfold SF64add, SFadd. now rewrite Z.min_comm, Z.add_comm.
Qed.

Lemma Prim2SF_zero : Prim2SF 0%float = S754_zero false.
Proof. reflexivity. Qed.

(** Adding to zero gives the number back, positive zero for either zero. *)
Lemma float_zero_add (x : float) :
  Prim2SF (0 + x)%float =
  match Prim2SF x with
  | S754_zero _ => S754_zero false
  | sx => sx
  end.
Proof.
  rewrite add_spec, Prim2SF_zero.
  destruct (Prim2SF x) as [s|s| |s m e]; try reflexivity; now destruct s.
Qed.

Lemma same_number_zero_add (x : float) : same_number (0 + x)%float x = true.
Proof.
  unfold same_number. rewrite eqb_spec, float_zero_add.
  destruct (Prim2SF x) as [s|s| |s m e] eqn:E.
  - reflexivity.
  - now destruct s.
  - assert (x = nan) as -> by (apply Prim2SF_inj; rewrite E; reflexivity).
    reflexivity.
  - unfold SFeqb, SFcompare. rewrite Z.compare_refl, Pos.compare_cont_refl.
    now destruct s.
Qed.

(** Two additions from zero commute. *)
Lemma float_sum2_comm (x y : float) : (0 + x + y)%float = (0 + y + x)%float.
Proof.
  apply Prim2SF_inj. rewrite (add_spec (0 + x)), (add_spec (0 + y)), !float_zero_add.
  destruct (Prim2SF x) as [sx|sx| |sx mx ex], (Prim2SF y) as [sy|sy| |sy my ey];
    try reflexivity; try (destruct sx, sy; reflexivity).
  unfold SF64add, SFadd. now rewrite Z.min_comm, Z.add_comm.
Qed.

(** ** Binary64 arithmetic on integers below 2^53 *)

Lemma shl_succ v k : shl v (S k) = xO (shl v k).
Proof. reflexivity. Qed.

Lemma shl_add v j k : shl (shl v j) k = shl v (j + k).
Proof. unfold shl. rewrite Nat.add_comm. symmetry. apply Nat.iter_add. Qed.

Lemma Pos_iter_xO v p : Pos.iter xO v p = shl v (Pos.to_nat p).
Proof. unfold shl. apply Pos2Nat.inj_iter. Qed.

Lemma shl_plus a b k : (shl a k + shl b k)%positive = shl (a + b) k.
Proof. induction k as [|k IH]; [reflexivity |]. rewrite !shl_succ, <- IH. reflexivity. Qed.

Lemma width_shl v k : width (shl v k) = (width v + k)%nat.
Proof.
  unfold width. induction k as [|k IH]; [simpl; lia |].
  change (shl v (S k)) with (xO (shl v k)).
  change (digits2_pos (xO (shl v k))) with (Pos.succ (digits2_pos (shl v k))).
  rewrite Pos2Nat.inj_succ. lia.
Qed.

Lemma width_pos v : (1 <= width v)%nat.
Proof. unfold width. lia. Qed.

Lemma width_lower v : (2 ^ (Z.of_nat (width v) - 1) <= Z.pos v)%Z.
Proof.
  unfold width. induction v as [v IH|v IH|]; simpl digits2_pos.
  - rewrite Pos2Nat.inj_succ, Nat2Z.inj_succ.
    replace (Z.succ (Z.of_nat (Pos.to_nat (digits2_pos v))) - 1)%Z
      with (Z.succ (Z.of_nat (Pos.to_nat (digits2_pos v)) - 1))%Z by lia.
    rewrite Z.pow_succ_r by lia. lia.
  - rewrite Pos2Nat.inj_succ, Nat2Z.inj_succ.
    replace (Z.succ (Z.of_nat (Pos.to_nat (digits2_pos v))) - 1)%Z
      with (Z.succ (Z.of_nat (Pos.to_nat (digits2_pos v)) - 1))%Z by lia.
    rewrite Z.pow_succ_r by lia. lia.
  - simpl. lia.
Qed.

Lemma width_safe v : (Z.pos v < 2 ^ 53)%Z -> (width v <= 53)%nat.
Proof.
  intros H. destruct (Nat.le_gt_cases (width v) 53) as [Hle | Hgt]; [exact Hle |].
  pose proof (width_lower v) as Hl.
  assert (2 ^ 53 <= 2 ^ (Z.of_nat (width v) - 1))%Z by (apply Z.pow_le_mono_r; lia).
  lia.
Qed.

Lemma iter_pos_nat {A : Type} (f : A -> A) (p : positive) (x : A) :
  iter_pos f p x = Nat.iter (Pos.to_nat p) f x.
Proof.
  revert x. induction p as [p IH|p IH|]; intros x; simpl iter_pos.
  - rewrite !IH, Pos2Nat.inj_xI, <- Nat.iter_add.
    replace (S (2 * Pos.to_nat p)) with (S (Pos.to_nat p + Pos.to_nat p)) by lia.
    now rewrite Nat.iter_succ_r.
  - rewrite !IH, Pos2Nat.inj_xO, <- Nat.iter_add. f_equal. lia.
  - reflexivity.
Qed.

Lemma shr_1_iter w q :
  Nat.iter q shr_1 {| shr_m := Z.pos (shl w q); shr_r := false; shr_s := false |}
  = {| shr_m := Z.pos w; shr_r := false; shr_s := false |}.
Proof.
  induction q as [|q IH]; [reflexivity |].
  rewrite Nat.iter_succ_r, shl_succ. exact IH.
Qed.

Lemma Zdigits_width v : Z.pos (digits2_pos v) = Z.of_nat (width v).
Proof. unfold width. lia. Qed.

Lemma shr_fexp_exact w q e :
  width w = 53%nat -> (-1074 <= e + Z.of_nat q)%Z ->
  shr_fexp prec emax (Z.pos (shl w q)) e loc_Exact
  = ({| shr_m := Z.pos w; shr_r := false; shr_s := false |}, (e + Z.of_nat q)%Z).
Proof.
  intros Hw He. unfold shr_fexp.
  assert (fexp prec emax (Zdigits2 (Z.pos (shl w q)) + e) - e = Z.of_nat q)%Z as ->.
  { unfold fexp, SpecFloat.emin, Zdigits2. rewrite Zdigits_width, width_shl, Hw.
    change prec with 53%Z. change emax with 1024%Z. lia. }
  unfold shr. simpl shr_record_of_loc.
  destruct q as [|q].
  - simpl. now rewrite Z.add_0_r.
  - change (Z.of_nat (S q)) with (Z.pos (Pos.of_succ_nat q)). cbv iota beta.
    rewrite (iter_pos_nat shr_1), SuccNat2Pos.id_succ, shr_1_iter. reflexivity.
Qed.

Lemma binary_round_aux_exact w q e :
  width w = 53%nat -> (-1074 <= e + Z.of_nat q <= 971)%Z ->
  binary_round_aux prec emax false (Z.pos (shl w q)) e loc_Exact
  = S754_finite false w (e + Z.of_nat q).
Proof.
  intros Hw He. unfold binary_round_aux.
  rewrite (shr_fexp_exact w q e Hw) by lia.
  cbn [shr_m shr_r shr_s loc_of_shr_record round_nearest_even].
  change (Z.pos w) with (Z.pos (shl w 0)) at 1.
  rewrite (shr_fexp_exact w 0 (e + Z.of_nat q) Hw) by (simpl; lia).
  cbn [shr_m Z.of_nat]. rewrite Z.add_0_r.
  assert ((e + Z.of_nat q <=? emax - prec)%Z = true) as ->; [|reflexivity].
  change prec with 53%Z. change emax with 1024%Z. apply Z.leb_le. lia.
Qed.

Lemma shl_align_canon v kv K :
  (kv <= K)%nat ->
  shl_align (shl v kv) (- Z.of_nat kv) (- Z.of_nat K) = (shl v K, (- Z.of_nat K)%Z).
Proof.
  intros H. unfold shl_align.
  destruct (- Z.of_nat K - - Z.of_nat kv)%Z as [|d|d] eqn:E.
  - assert (kv = K) by lia. now subst.
  - lia.
  - rewrite Pos_iter_xO, shl_add. f_equal. f_equal. lia.
Qed.

Lemma binary_round_exact v k :
  (width v <= 53)%nat ->
  binary_round prec emax false (shl v k) (- Z.of_nat k) = canon v.
Proof.
  intros Hv. pose proof (width_pos v) as Hp. unfold binary_round, canon.
  set (K := (53 - width v)%nat).
  assert (fexp prec emax (Z.pos (digits2_pos (shl v k)) + - Z.of_nat k) = - Z.of_nat K)%Z as ->.
  { unfold fexp, SpecFloat.emin. rewrite Zdigits_width, width_shl.
    change prec with 53%Z. change emax with 1024%Z. lia. }
  assert (width (shl v K) = 53%nat) as HwK by (rewrite width_shl; lia).
  destruct (Nat.le_gt_cases k K) as [Hle | Hgt].
  - rewrite (shl_align_canon v k K Hle).
    change (shl v K) with (shl (shl v K) 0) at 1.
    rewrite (binary_round_aux_exact (shl v K) 0 _ HwK) by (simpl; lia).
    simpl Z.of_nat. now rewrite Z.add_0_r.
  - assert (shl_align (shl v k) (- Z.of_nat k) (- Z.of_nat K) = (shl v k, (- Z.of_nat k)%Z)) as ->.
    { unfold shl_align. destruct (- Z.of_nat K - - Z.of_nat k)%Z eqn:E; try reflexivity. lia. }
    replace (shl v k) with (shl (shl v K) (k - K)) by (rewrite shl_add; f_equal; lia).
    rewrite (binary_round_aux_exact (shl v K) (k - K) _ HwK) by lia.
    f_equal. lia.
Qed.

Lemma to_Z_of_Z n : (0 <= n < 2 ^ 53)%Z -> Uint63Axioms.to_Z (Uint63Axioms.of_Z n) = n.
Proof.
  intros H. rewrite Uint63.of_Z_spec. apply Z.mod_small.
  change Uint63.wB with (2 ^ 63)%Z.
  assert (2 ^ 53 < 2 ^ 63)%Z by (apply Z.pow_lt_mono_r; lia). lia.
Qed.

Lemma Prim2SF_number_pos v :
  (Z.pos v < 2 ^ 53)%Z -> Prim2SF (number (Z.pos v)) = canon v.
Proof.
  intros H. unfold number. change (Z.pos v <? 0)%Z with false. cbv iota.
  rewrite of_uint63_spec, to_Z_of_Z by lia. cbn [binary_normalize].
  change v with (shl v 0) at 1. change 0%Z with (- Z.of_nat 0)%Z.
  apply binary_round_exact, width_safe, H.
Qed.

Lemma Prim2SF_number_zero : Prim2SF (number 0) = S754_zero false.
Proof. reflexivity. Qed.

Lemma SFadd_canon a b :
  (Z.pos a + Z.pos b < 2 ^ 53)%Z ->
  SF64add (canon a) (canon b) = canon (a + b).
Proof.
  intros H.
  assert (width a <= 53)%nat as Ha by (apply width_safe; lia).
  assert (width b <= 53)%nat as Hb by (apply width_safe; lia).
  assert (width (a + b) <= 53)%nat as Hab by (apply width_safe; rewrite Pos2Z.inj_add; lia).
  unfold SF64add, SFadd, canon. cbv zeta.
  set (ka := (53 - width a)%nat). set (kb := (53 - width b)%nat).
  set (K := Nat.max ka kb).
  assert (Z.min (- Z.of_nat ka) (- Z.of_nat kb) = - Z.of_nat K)%Z as -> by lia.
  rewrite (shl_align_canon a ka K) by lia.
  rewrite (shl_align_canon b kb K) by lia.
  simpl fst. simpl cond_Zopp. rewrite <- Pos2Z.inj_add, shl_plus. simpl binary_normalize.
  apply (binary_round_exact (a + b) K Hab).
Qed.

(** Binary64 addition is exact on non-negative integers whose sum is below
    2^53. *)
Lemma number_add (a b : Z) :
  (0 <= a)%Z -> (0 <= b)%Z -> (a + b < 2 ^ 53)%Z ->
  (number a + number b)%float = number (a + b).
Proof.
  intros Ha Hb H. apply Prim2SF_inj. rewrite add_spec.
  destruct a as [|a|a]; [| |lia]; destruct b as [|b|b]; try lia.
  - reflexivity.
  - rewrite Prim2SF_number_zero. simpl Z.add. rewrite Prim2SF_number_pos by lia. reflexivity.
  - rewrite Prim2SF_number_zero, Z.add_0_r. rewrite Prim2SF_number_pos by lia. reflexivity.
  - rewrite !Prim2SF_number_pos by lia.
    rewrite <- Pos2Z.inj_add. rewrite Prim2SF_number_pos by (rewrite Pos2Z.inj_add; lia).
    apply SFadd_canon. lia.
Qed.

Lemma width_upper v : (Z.pos v < 2 ^ Z.of_nat (width v))%Z.
Proof.
  unfold width. induction v as [v IH|v IH|]; simpl digits2_pos.
  - rewrite Pos2Nat.inj_succ, Nat2Z.inj_succ, Z.pow_succ_r by lia. lia.
  - rewrite Pos2Nat.inj_succ, Nat2Z.inj_succ, Z.pow_succ_r by lia. lia.
  - simpl. lia.
Qed.

Lemma width_mono a b : (Z.pos a <= Z.pos b)%Z -> (width a <= width b)%nat.
Proof.
  intros H. destruct (Nat.le_gt_cases (width a) (width b)) as [Hle | Hgt]; [exact Hle |].
  pose proof (width_lower a). pose proof (width_upper b).
  assert (2 ^ Z.of_nat (width b) <= 2 ^ (Z.of_nat (width a) - 1))%Z
    by (apply Z.pow_le_mono_r; lia).
  lia.
Qed.

Lemma shl_Z v k : Z.pos (shl v k) = (Z.pos v * 2 ^ Z.of_nat k)%Z.
Proof.
  induction k as [|k IH]; [simpl; lia |].
  rewrite shl_succ, Pos2Z.inj_xO, IH, Nat2Z.inj_succ, Z.pow_succ_r by lia. lia.
Qed.

Lemma SFleb_canon a b : (Z.pos a <= Z.pos b)%Z -> SFleb (canon a) (canon b) = true.
Proof.
  intros H. pose proof (width_mono a b H) as Hw.
  unfold SFleb, SFcompare, canon.
  destruct (Z.compare_spec (- Z.of_nat (53 - width a)) (- Z.of_nat (53 - width b)))
    as [E | E | E]; [| reflexivity |].
  - assert (53 - width a = 53 - width b)%nat as Hk by lia. rewrite Hk.
    change (Pos.compare_cont Eq ?x ?y) with (Pos.compare x y).
    destruct (Pos.compare_spec (shl a (53 - width b)) (shl b (53 - width b)))
      as [_ | _ | Hlt]; try reflexivity.
    exfalso. apply Pos2Z.pos_lt_pos in Hlt. rewrite !shl_Z in Hlt.
    assert (0 < 2 ^ Z.of_nat (53 - width b))%Z by (apply Z.pow_pos_nonneg; lia).
    nia.
  - lia.
Qed.

(** Binary64 comparison agrees with the order of the integers below 2^53. *)
Lemma number_le (a b : Z) :
  (0 <= a <= b)%Z -> (b < 2 ^ 53)%Z -> (number a <=? number b)%float = true.
Proof.
  intros Hab Hb. rewrite leb_spec.
  destruct a as [|a|a]; [| |lia]; destruct b as [|b|b]; try lia.
  - reflexivity.
  - rewrite Prim2SF_number_zero, Prim2SF_number_pos by lia. reflexivity.
  - rewrite !Prim2SF_number_pos by lia. apply SFleb_canon. lia.
Qed.

(** ** The [periodUsage] reduction *)

Lemma fold_add_item (l : list ModelStatsItem.t) (acc : PeriodUsage.t) :
  fold_left add_item l acc =
  {| PeriodUsage.requests :=
       fold_left PrimFloat.add (map ModelStatsItem.requests l) (PeriodUsage.requests acc);
     PeriodUsage.inputTokens :=
       fold_left PrimFloat.add (map ModelStatsItem.inputTokens l)
         (PeriodUsage.inputTokens acc);
     PeriodUsage.outputTokens :=
       fold_left PrimFloat.add (map ModelStatsItem.outputTokens l)
         (PeriodUsage.outputTokens acc);
     PeriodUsage.cacheCreateTokens :=
       fold_left PrimFloat.add (map ModelStatsItem.cacheCreateTokens l)
         (PeriodUsage.cacheCreateTokens acc);
     PeriodUsage.cacheReadTokens :=
       fold_left PrimFloat.add (map ModelStatsItem.cacheReadTokens l)
         (PeriodUsage.cacheReadTokens acc);
     PeriodUsage.allTokens :=
       fold_left PrimFloat.add (map ModelStatsItem.allTokens l)
         (PeriodUsage.allTokens acc);
     PeriodUsage.cost :=
       fold_left PrimFloat.add
         (map (fun m => Costs.total (ModelStatsItem.costs m)) l)
         (PeriodUsage.cost acc) |}.
Proof.
  revert acc. induction l as [|m l IH]; intros acc.
  - now destruct acc.
  - simpl fold_left. rewrite IH. reflexivity.
Qed.

Lemma periodUsage_cons (m : ModelStatsItem.t) (l : list ModelStatsItem.t) :
  periodUsage (m :: l) = Some (fold_left add_item (m :: l) no_usage).
Proof. reflexivity. Qed.

Lemma total_of_nonneg (f : ModelStatsItem.t -> float) (l : list ModelStatsItem.t) :
  Forall (fun m => is_count (f m)) l -> (0 <= total_of f l)%Z.
Proof.
  unfold total_of. induction 1 as [|m l [Hm _] _ IH]; simpl; lia.
Qed.

(** The binary64 sum of counters that are non-negative integers is their
    exact total, as long as that is below 2^53. *)
Lemma fold_add_exact (f : ModelStatsItem.t -> float) (l : list ModelStatsItem.t) (acc : Z) :
  Forall (fun m => is_count (f m)) l ->
  (0 <= acc)%Z -> (acc + total_of f l < 2 ^ 53)%Z ->
  fold_left PrimFloat.add (map f l) (number acc) = number (acc + total_of f l).
Proof.
  intros Hl. revert acc. induction Hl as [|m l [Hm Hx] Hl IH]; intros acc Hacc Hsafe.
  - unfold total_of. simpl. now rewrite Z.add_0_r.
  - pose proof (total_of_nonneg f l Hl) as Hrest.
    change (total_of f (m :: l)) with (count (f m) + total_of f l)%Z in *.
    simpl. rewrite Hx at 1. rewrite number_add by lia.
    rewrite IH by lia. f_equal. lia.
Qed.

Lemma float_sum_exact (f : ModelStatsItem.t -> float) (l : list ModelStatsItem.t) :
  Forall (fun m => is_count (f m)) l -> (total_of f l < 2 ^ 53)%Z ->
  float_sum f l = number (total_of f l).
Proof.
  intros Hl Hsafe. unfold float_sum. change 0%float with (number 0).
  now rewrite fold_add_exact by (assumption || lia).
Qed.

Lemma periodUsage_exact (m : ModelStatsItem.t) (l : list ModelStatsItem.t) :
  Forall counted (m :: l) -> within_safe (m :: l) ->
  exists u,
    periodUsage (m :: l) = Some u
    /\ PeriodUsage.requests u = number (total_of ModelStatsItem.requests (m :: l))
    /\ PeriodUsage.inputTokens u = number (total_of ModelStatsItem.inputTokens (m :: l))
    /\ PeriodUsage.outputTokens u = number (total_of ModelStatsItem.outputTokens (m :: l))
    /\ PeriodUsage.cacheCreateTokens u
       = number (total_of ModelStatsItem.cacheCreateTokens (m :: l))
    /\ PeriodUsage.cacheReadTokens u
       = number (total_of ModelStatsItem.cacheReadTokens (m :: l))
    /\ PeriodUsage.allTokens u = number (total_of ModelStatsItem.allTokens (m :: l)).
Proof.
  intros Hc [S1 [S2 [S3 [S4 [S5 S6]]]]].
  eexists. rewrite periodUsage_cons, fold_add_item. split; [reflexivity |].
  cbn [PeriodUsage.requests PeriodUsage.inputTokens PeriodUsage.outputTokens
       PeriodUsage.cacheCreateTokens PeriodUsage.cacheReadTokens
       PeriodUsage.allTokens no_usage].
  repeat split;
    (apply float_sum_exact; [|assumption]);
    (eapply Forall_impl; [|exact Hc]); intros x Hx; apply Hx.
Qed.

(** C2. [periodUsage] is [null] for the empty list; for a non-empty list it is
    the record of the sums of requests, inputTokens, outputTokens,
    cacheCreateTokens, cacheReadTokens, allTokens and [costs.total] over the
    items, each a binary64 sum taken in list order; when the counters are
    non-negative integers with totals below 2^53 these sums are the exact
    totals; for a one-item list the fields are the item's own (as numbers:
    up to the sign of zero). *)
Theorem periodUsage_sums :
  periodUsage [] = None
  /\ (forall m l,
        periodUsage (m :: l) =
        Some {| PeriodUsage.requests := float_sum ModelStatsItem.requests (m :: l);
                PeriodUsage.inputTokens := float_sum ModelStatsItem.inputTokens (m :: l);
                PeriodUsage.outputTokens := float_sum ModelStatsItem.outputTokens (m :: l);
                PeriodUsage.cacheCreateTokens :=
                  float_sum ModelStatsItem.cacheCreateTokens (m :: l);
                PeriodUsage.cacheReadTokens :=
                  float_sum ModelStatsItem.cacheReadTokens (m :: l);
                PeriodUsage.allTokens := float_sum ModelStatsItem.allTokens (m :: l);
                PeriodUsage.cost := cost_of (m :: l) |})
  /\ (forall m l, Forall counted (m :: l) -> within_safe (m :: l) ->
      exists u,
        periodUsage (m :: l) = Some u
        /\ PeriodUsage.requests u = number (total_of ModelStatsItem.requests (m :: l))
        /\ PeriodUsage.inputTokens u
           = number (total_of ModelStatsItem.inputTokens (m :: l))
        /\ PeriodUsage.outputTokens u
           = number (total_of ModelStatsItem.outputTokens (m :: l))
        /\ PeriodUsage.cacheCreateTokens u
           = number (total_of ModelStatsItem.cacheCreateTokens (m :: l))
        /\ PeriodUsage.cacheReadTokens u
           = number (total_of ModelStatsItem.cacheReadTokens (m :: l))
        /\ PeriodUsage.allTokens u
           = number (total_of ModelStatsItem.allTokens (m :: l)))
  /\ (forall m, exists u,
        periodUsage [m] = Some u
        /\ same_number (PeriodUsage.requests u) (ModelStatsItem.requests m) = true
        /\ same_number (PeriodUsage.inputTokens u) (ModelStatsItem.inputTokens m) = true
        /\ same_number (PeriodUsage.outputTokens u) (ModelStatsItem.outputTokens m) = true
        /\ same_number (PeriodUsage.cacheCreateTokens u)
             (ModelStatsItem.cacheCreateTokens m) = true
        /\ same_number (PeriodUsage.cacheReadTokens u)
             (ModelStatsItem.cacheReadTokens m) = true
        /\ same_number (PeriodUsage.allTokens u) (ModelStatsItem.allTokens m) = true
        /\ same_number (PeriodUsage.cost u) (Costs.total (ModelStatsItem.costs m)) = true).
Proof.
  split; [reflexivity | split; [|split]].
  - intros m l. rewrite periodUsage_cons, fold_add_item. reflexivity.
  - apply periodUsage_exact.
  - intros m. eexists. split; [reflexivity |]. simpl.
    repeat split; apply same_number_zero_add.
Qed.

(** The exact totals of the sample items, which are integers: the aggregate
    of 10 and 5 requests holds 15. *)
Example periodUsage_exact_example :
  Forall counted [opus_item; gpt_item]
  /\ within_safe [opus_item; gpt_item]
  /\ option_map PeriodUsage.requests (periodUsage [opus_item; gpt_item]) = Some 15%float
  /\ total_of ModelStatsItem.requests [opus_item; gpt_item] = 15%Z.
Proof.
  split; [|split; [|split; reflexivity]].
  - repeat constructor; vm_compute; intuition discriminate.
  - unfold within_safe. vm_compute. intuition.
Qed.

Lemma total_of_permutation (f : ModelStatsItem.t -> float) (l l' : list ModelStatsItem.t) :
  Permutation l l' -> total_of f l = total_of f l'.
Proof.
  unfold total_of. induction 1 as [|x l l' _ IH|x y l|l l' l'' _ IH1 _ IH2]; simpl.
  - reflexivity.
  - now rewrite IH.
  - lia.
  - now rewrite IH1.
Qed.

(** Counterexample to C7 as stated: the costs 0.1, 0.2 and 0.3 add up to
    0.6000000000000001 in this order and to 0.6 in the reverse order, so two
    permutations of one list have different aggregates. *)
Lemma periodUsage_order_matters :
  Permutation [sonnet_item; haiku_item; gemini_item]
              [gemini_item; haiku_item; sonnet_item]
  /\ periodUsage [sonnet_item; haiku_item; gemini_item]
     <> periodUsage [gemini_item; haiku_item; sonnet_item]
  /\ option_map PeriodUsage.cost (periodUsage [sonnet_item; haiku_item; gemini_item])
     = Some 0.6000000000000001%float
  /\ option_map PeriodUsage.cost (periodUsage [gemini_item; haiku_item; sonnet_item])
     = Some 0.6%float.
Proof.
  split; [|split; [|split]].
  - apply Permutation_trans with [haiku_item; sonnet_item; gemini_item].
    + apply perm_swap.
    + apply Permutation_trans with [haiku_item; gemini_item; sonnet_item].
      * apply perm_skip, perm_swap.
      * apply perm_swap.
  - intros H.
    apply (f_equal (option_map (fun u => (PeriodUsage.cost u =? 0.6)%float))) in H.
    vm_compute in H. discriminate.
  - vm_compute. reflexivity.
  - vm_compute. reflexivity.
Qed.

(** The counters are binary64 sums as well: past 2^53 their sum depends on
    the order too. Three items with 2^53, 1 and 1 requests aggregate to 2^53
    requests in this order and to 2^53 + 2 in the reverse order. *)
Example periodUsage_requests_order_example :
  option_map PeriodUsage.requests
    (periodUsage [item "a" (2 ^ 53) 0 0 0; item "b" 1 0 0 0; item "c" 1 0 0 0])
  = Some 9007199254740992%float
  /\ option_map PeriodUsage.requests
       (periodUsage [item "c" 1 0 0 0; item "b" 1 0 0 0; item "a" (2 ^ 53) 0 0 0])
     = Some 9007199254740994%float.
Proof. split; vm_compute; reflexivity. Qed.

Lemma Forall_counted_field (f : ModelStatsItem.t -> float) (l : list ModelStatsItem.t) :
  (forall m, counted m -> is_count (f m)) ->
  Forall counted l -> Forall (fun m => is_count (f m)) l.
Proof. intros Hf Hl. eapply Forall_impl; [|exact Hl]. exact Hf. Qed.

Lemma within_safe_permutation (l l' : list ModelStatsItem.t) :
  Permutation l l' -> within_safe l -> within_safe l'.
Proof.
  intros HP. unfold within_safe.
  now rewrite !(total_of_permutation _ l l' HP).
Qed.

(** C7, amended. Permuting the input leaves unchanged whether there is an
    aggregate, leaves the whole aggregate unchanged for a list of at most two
    items, and leaves the six counters unchanged whenever every counter is a
    non-negative integer and the six totals are below 2^53, where the sums
    are exact. Beyond that each field is a binary64 sum taken in list order
    and can differ between orders. *)
Theorem periodUsage_permutation (l l' : list ModelStatsItem.t) :
  Permutation l l' ->
  (periodUsage l = None <-> periodUsage l' = None)
  /\ ((List.length l <= 2)%nat -> periodUsage l = periodUsage l')
  /\ (Forall counted l -> within_safe l ->
      both_or_neither same_counters (periodUsage l) (periodUsage l')).
Proof.
  intros HP. split; [|split].
  - destruct l as [|m l], l' as [|m' l']; try tauto.
    + now apply Permutation_nil_cons in HP.
    + now apply Permutation_sym, Permutation_nil_cons in HP.
    + rewrite !periodUsage_cons. split; discriminate.
  - intros Hlen. destruct l as [|a [|b [|c l]]].
    + apply Permutation_nil in HP. now subst.
    + apply Permutation_length_1_inv in HP. now subst.
    + apply Permutation_length_2_inv in HP. destruct HP as [->| ->]; [reflexivity|].
      rewrite !periodUsage_cons, !fold_add_item. simpl.
      f_equal. f_equal; apply float_sum2_comm.
    + simpl in Hlen. lia.
  - intros Hc Hs. destruct l as [|m l], l' as [|m' l'].
    + exact I.
    + now apply Permutation_nil_cons in HP.
    + now apply Permutation_sym, Permutation_nil_cons in HP.
    + assert (Forall counted (m' :: l')) as Hc'
        by (eapply Permutation_Forall; [exact HP | exact Hc]).
      pose proof (within_safe_permutation _ _ HP Hs) as Hs'.
      destruct (periodUsage_exact m l Hc Hs) as [u [-> [U1 [U2 [U3 [U4 [U5 U6]]]]]]].
      destruct (periodUsage_exact m' l' Hc' Hs') as [v [-> [V1 [V2 [V3 [V4 [V5 V6]]]]]]].
      unfold both_or_neither, same_counters.
      rewrite U1, U2, U3, U4, U5, U6, V1, V2, V3, V4, V5, V6.
      now rewrite !(total_of_permutation _ _ _ HP).
Qed.

Lemma periodUsage_permutation_witness :
  (periodUsage [opus_item; gpt_item] = None <-> periodUsage [gpt_item; opus_item] = None)
  /\ ((List.length [opus_item; gpt_item] <= 2)%nat ->
      periodUsage [opus_item; gpt_item] = periodUsage [gpt_item; opus_item])
  /\ (Forall counted [opus_item; gpt_item] -> within_safe [opus_item; gpt_item] ->
      both_or_neither same_counters
        (periodUsage [opus_item; gpt_item]) (periodUsage [gpt_item; opus_item])).
Proof.
  apply (periodUsage_permutation [opus_item; gpt_item] [gpt_item; opus_item]).
  apply perm_swap.
Defined.

(** ** [extractApiKey] *)

Lemma stored_assoc (k : string) (v : value) (props : list (string * value)) :
  stored k v props <-> assoc k props = Some v.
Proof.
  split.
  - induction 1 as [rest | k' v' rest Hne _ IH]; simpl.
    + now rewrite String.eqb_refl.
    + apply String.eqb_neq in Hne. now rewrite Hne.
  - induction props as [|[k' v'] rest IH]; simpl; [discriminate |].
    destruct (String.eqb_spec k' k) as [->|Hne].
    + intros H. inversion H. constructor.
    + intros H. apply stored_later; [exact Hne | now apply IH].
Qed.

Lemma lookup_stored (k : string) (v : value) (props : list (string * value)) :
  stored k v props -> lookup k props = v.
Proof. intros H. apply stored_assoc in H. unfold lookup. now rewrite H. Qed.

Lemma lookup_text (k s : string) (props : list (string * value)) :
  lookup k props = VString s -> stored k (VString s) props.
Proof.
  unfold lookup. intros H. apply stored_assoc.
  destruct (assoc k props) as [v|]; [now subst v | discriminate].
Qed.

Lemma string_or_empty_none (k : string) (props : list (string * value)) :
  (forall s, ~ stored k (VString s) props) ->
  string_or_empty (lookup k props) = "".
Proof.
  intros Hnone. destruct (lookup k props) as [| | | |s| |] eqn:E; try reflexivity.
  elim (Hnone s). now apply lookup_text.
Qed.

Section ExtractApiKeyProperties.

Variable JSON_parse : string -> option value.

Lemma extractApiKey_payload (p : Provider) (appId : string) (config : value) :
  payload JSON_parse p config ->
  extractApiKey JSON_parse (Some p) appId =
  match extractApiKey_try (fun _ => Some config) (VString "") appId with
  | Some key => key
  | None => ""
  end.
Proof.
  intros [Hsc Htruthy Hnot | s Hsc Hne Hparse]; unfold extractApiKey; rewrite Hsc.
  - rewrite Htruthy. simpl negb. cbv iota.
    unfold extractApiKey_try.
    destruct config; try reflexivity. now destruct (Hnot s).
  - simpl truthy. apply String.eqb_neq in Hne. rewrite Hne. simpl negb. cbv iota.
    unfold extractApiKey_try. now rewrite Hparse.
Qed.

Lemma extractApiKey_lookup
  (p : Provider) (appId : string) (config : value) (env : list (string * value)) :
  payload JSON_parse p config ->
  get_opt config "env" = VObject env ->
  (appId = "gemini" ->
   extractApiKey JSON_parse (Some p) appId
   = string_or_empty (lookup "GEMINI_API_KEY" env))
  /\ (appId = "codex" ->
      extractApiKey JSON_parse (Some p) appId
      = string_or_empty
          (lookup "OPENAI_API_KEY" (mapping_or_empty (get_opt config "auth"))))
  /\ (appId <> "gemini" -> appId <> "codex" ->
      extractApiKey JSON_parse (Some p) appId
      = match lookup "ANTHROPIC_AUTH_TOKEN" env with
        | VString token => token
        | _ => string_or_empty (lookup "ANTHROPIC_API_KEY" env)
        end).
Proof.
  intros Hpayload Henv.
  rewrite (extractApiKey_payload _ _ _ Hpayload).
  unfold extractApiKey_try. rewrite Henv.
  change (coalesce (VObject env) (VObject [])) with (VObject env).
  split; [|split].
  - intros ->. reflexivity.
  - intros ->. simpl.
    destruct (get_opt config "auth") as [| | | | |items|auth]; reflexivity.
  - intros Hg Hc. apply String.eqb_neq in Hg, Hc. rewrite Hg, Hc.
    unfold get_prop, lookup.
    destruct (assoc "ANTHROPIC_AUTH_TOKEN" env) as [[]|];
      destruct (assoc "ANTHROPIC_API_KEY" env) as [[]|]; reflexivity.
Qed.

(** C1. When the parsed settings payload is a mapping that holds a mapping
    [env], [extractApiKey] returns, for gemini, [env.GEMINI_API_KEY] if that
    is a string and the empty string otherwise; for codex,
    [auth.OPENAI_API_KEY] if the payload holds a mapping [auth] and that value
    is a string, and the empty string otherwise (also when there is no
    mapping [auth]); for any other application, [env.ANTHROPIC_AUTH_TOKEN] if
    that is a string, else [env.ANTHROPIC_API_KEY] if that is a string, else
    the empty string. *)
Theorem extractApiKey_by_app
  (p : Provider) (appId : string) (props env : list (string * value)) :
  payload JSON_parse p (VObject props) ->
  stored "env" (VObject env) props ->
  (appId = "gemini" ->
   (forall key, stored "GEMINI_API_KEY" (VString key) env ->
      extractApiKey JSON_parse (Some p) appId = key)
   /\ ((forall key, ~ stored "GEMINI_API_KEY" (VString key) env) ->
       extractApiKey JSON_parse (Some p) appId = ""))
  /\ (appId = "codex" ->
      (forall auth key,
         stored "auth" (VObject auth) props ->
         stored "OPENAI_API_KEY" (VString key) auth ->
         extractApiKey JSON_parse (Some p) appId = key)
      /\ (forall auth,
            stored "auth" (VObject auth) props ->
            (forall key, ~ stored "OPENAI_API_KEY" (VString key) auth) ->
            extractApiKey JSON_parse (Some p) appId = "")
      /\ ((forall auth, ~ stored "auth" (VObject auth) props) ->
          extractApiKey JSON_parse (Some p) appId = ""))
  /\ (appId <> "gemini" -> appId <> "codex" ->
      (forall token, stored "ANTHROPIC_AUTH_TOKEN" (VString token) env ->
         extractApiKey JSON_parse (Some p) appId = token)
      /\ (forall key,
            (forall token, ~ stored "ANTHROPIC_AUTH_TOKEN" (VString token) env) ->
            stored "ANTHROPIC_API_KEY" (VString key) env ->
            extractApiKey JSON_parse (Some p) appId = key)
      /\ ((forall token, ~ stored "ANTHROPIC_AUTH_TOKEN" (VString token) env) ->
          (forall key, ~ stored "ANTHROPIC_API_KEY" (VString key) env) ->
          extractApiKey JSON_parse (Some p) appId = "")).
Proof.
  intros Hpayload Henv.
  assert (get_opt (VObject props) "env" = VObject env) as Hget.
  { unfold get_opt, get_prop. apply stored_assoc in Henv. now rewrite Henv. }
  destruct (extractApiKey_lookup p appId (VObject props) env Hpayload Hget)
    as [Hgemini [Hcodex Hother]].
  split; [|split].
  - intros Happ. rewrite (Hgemini Happ). split.
    + intros key Hkey. now rewrite (lookup_stored _ _ _ Hkey).
    + apply string_or_empty_none.
  - intros Happ. rewrite (Hcodex Happ). split; [|split].
    + intros auth key Hauth Hkey.
      unfold get_opt, get_prop. apply stored_assoc in Hauth. rewrite Hauth.
      simpl mapping_or_empty. now rewrite (lookup_stored _ _ _ Hkey).
    + intros auth Hauth Hnone.
      unfold get_opt, get_prop. apply stored_assoc in Hauth. rewrite Hauth.
      simpl mapping_or_empty. now apply string_or_empty_none.
    + intros Hnone. unfold get_opt, get_prop.
      destruct (assoc "auth" props) as [v|] eqn:Hauth; [|reflexivity].
      destruct v as [| | | | | |auth]; try reflexivity.
      apply stored_assoc in Hauth. now elim (Hnone auth).
  - intros Hg Hc. rewrite (Hother Hg Hc). split; [|split].
    + intros token Htoken. now rewrite (lookup_stored _ _ _ Htoken).
    + intros key Hnone Hkey.
      destruct (lookup "ANTHROPIC_AUTH_TOKEN" env) as [| | | |token| |] eqn:Ht;
        try now rewrite (lookup_stored _ _ _ Hkey).
      elim (Hnone token). now apply lookup_text.
    + intros Hnone Hnokey.
      destruct (lookup "ANTHROPIC_AUTH_TOKEN" env) as [| | | |token| |] eqn:Ht;
        try now apply string_or_empty_none.
      elim (Hnone token). now apply lookup_text.
Qed.

(** C4. [extractApiKey] returns a string on every input, the empty string
    when an exception is raised in the guarded block; that string is also
    empty when the provider is absent, when it has no settings payload, and
    when its settings text does not parse. *)
Theorem extractApiKey_empty (provider : option Provider) (appId : string) :
  (provider = None -> extractApiKey JSON_parse provider appId = "")
  /\ (forall p, provider = Some p -> truthy (settingsConfig p) = false ->
      extractApiKey JSON_parse provider appId = "")
  /\ (forall p s, provider = Some p -> settingsConfig p = VString s ->
      JSON_parse s = None ->
      extractApiKey JSON_parse provider appId = "")
  /\ (forall p, provider = Some p ->
      extractApiKey_try JSON_parse (settingsConfig p) appId = None ->
      extractApiKey JSON_parse provider appId = "").
Proof.
  split; [|split; [|split]].
  - intros ->. reflexivity.
  - intros p -> Hfalsy. unfold extractApiKey. now rewrite Hfalsy.
  - intros p s -> Hsc Hparse. unfold extractApiKey, extractApiKey_try.
    rewrite Hsc, Hparse. now destruct (negb _).
  - intros p -> Hthrow. unfold extractApiKey. rewrite Hthrow. now destruct (negb _).
Qed.

End ExtractApiKeyProperties.

Lemma extractApiKey_by_app_witness :
  extractApiKey sample_parse (Some gemini_provider) "gemini" = "g-key"
  /\ extractApiKey sample_parse (Some claude_provider) "gemini" = ""
  /\ extractApiKey sample_parse (Some claude_provider) "codex" = "sk-openai"
  /\ extractApiKey sample_parse (Some key_provider) "codex" = ""
  /\ extractApiKey sample_parse (Some claude_provider) "claude" = "sk-token"
  /\ extractApiKey sample_parse (Some key_provider) "claude" = "sk-key"
  /\ extractApiKey sample_parse (Some gemini_provider) "claude" = "".
Proof.
  assert (forall p props, settingsConfig p = VObject props ->
          payload sample_parse p (VObject props)) as Hpayload.
  { intros p props H. apply payload_direct; [exact H | reflexivity | discriminate]. }
  assert (forall k v props, assoc k props = Some v -> stored k v props) as Hstored.
  { intros k v props. apply stored_assoc. }
  assert (forall k props, (forall s, assoc k props <> Some (VString s)) ->
          forall s, ~ stored k (VString s) props) as Hnone.
  { intros k props H s Hs. apply stored_assoc in Hs. exact (H s Hs). }
  destruct (extractApiKey_by_app sample_parse gemini_provider "gemini"
              [("env", VObject [("GEMINI_API_KEY", VString "g-key")])]
              [("GEMINI_API_KEY", VString "g-key")])
    as [Hgemini _];
    [now apply Hpayload | now apply Hstored |].
  destruct (extractApiKey_by_app sample_parse gemini_provider "claude"
              [("env", VObject [("GEMINI_API_KEY", VString "g-key")])]
              [("GEMINI_API_KEY", VString "g-key")])
    as [_ [_ Hgemini_other]];
    [now apply Hpayload | now apply Hstored |].
  pose proof (fun appId =>
              extractApiKey_by_app sample_parse claude_provider appId
                [("env", VObject [("ANTHROPIC_AUTH_TOKEN", VString "sk-token");
                                  ("ANTHROPIC_API_KEY", VString "sk-key");
                                  ("GEMINI_API_KEY", VNumber 7)]);
                 ("auth", VObject [("OPENAI_API_KEY", VString "sk-openai")])]
                [("ANTHROPIC_AUTH_TOKEN", VString "sk-token");
                 ("ANTHROPIC_API_KEY", VString "sk-key");
                 ("GEMINI_API_KEY", VNumber 7)]) as Hclaude.
  pose proof (fun appId =>
              extractApiKey_by_app sample_parse key_provider appId
                [("auth", VNull);
                 ("env", VObject [("ANTHROPIC_AUTH_TOKEN", VNull);
                                  ("ANTHROPIC_API_KEY", VString "sk-key")])]
                [("ANTHROPIC_AUTH_TOKEN", VNull);
                 ("ANTHROPIC_API_KEY", VString "sk-key")]) as Hkey.
  split; [|split; [|split; [|split; [|split; [|split]]]]].
  - apply (Hgemini eq_refl). now apply Hstored.
  - destruct (Hclaude "gemini") as [Hg _];
      [now apply Hpayload | now apply Hstored |].
    apply (Hg eq_refl). apply Hnone. discriminate.
  - destruct (Hclaude "codex") as [_ [Hcodex _]];
      [now apply Hpayload | now apply Hstored |].
    apply (Hcodex eq_refl) with (auth := [("OPENAI_API_KEY", VString "sk-openai")]);
      now apply Hstored.
  - destruct (Hkey "codex") as [_ [Hcodex _]];
      [now apply Hpayload | now apply Hstored |].
    apply (Hcodex eq_refl).
    intros auth Hauth. apply stored_assoc in Hauth. discriminate Hauth.
  - destruct (Hclaude "claude") as [_ [_ Hother]];
      [now apply Hpayload | now apply Hstored |].
    destruct Hother as [Htoken _]; [discriminate | discriminate |].
    apply Htoken. now apply Hstored.
  - destruct (Hkey "claude") as [_ [_ Hother]];
      [now apply Hpayload | now apply Hstored |].
    destruct Hother as [_ [Hapikey _]]; [discriminate | discriminate |].
    apply Hapikey; [apply Hnone; discriminate | now apply Hstored].
  - destruct Hgemini_other as [_ [_ Hempty]]; [discriminate | discriminate |].
    apply Hempty; apply Hnone; discriminate.
Defined.

(** ** The remote-call wrappers *)

Section WrapperProperties.

Variable invoke : forall A : Type, usageLogApi.command A -> usageLogApi.InvokeArgs -> outcome A.
Variable ToString : value -> string.

Lemma query_returns (apiKey : string) (baseUrl period : option string) :
  exists r, usageLogApi.query invoke ToString apiKey baseUrl period = Returned r.
Proof. unfold usageLogApi.query. destruct (invoke _ _ _); eauto. Qed.

Lemma queryModelStats_returns (apiKey : string) (baseUrl period : option string) :
  exists r, usageLogApi.queryModelStats invoke ToString apiKey baseUrl period = Returned r.
Proof. unfold usageLogApi.queryModelStats. destruct (invoke _ _ _); eauto. Qed.

(** C10. [query] and [queryModelStats] return a result object whatever the
    invocation does: its result when it resolves, and [success = false] with
    the stringified exception (the exception itself when it is a string,
    [String] of it otherwise) as [error] when it throws. The one invocation
    they make carries the period ["daily"] when none is given. *)
Theorem wrappers_never_raise (apiKey : string) (baseUrl period : option string) :
  let args := usageLogApi.invoke_args apiKey baseUrl period in
  (exists r, usageLogApi.query invoke ToString apiKey baseUrl period = Returned r)
  /\ (exists r, usageLogApi.queryModelStats invoke ToString apiKey baseUrl period = Returned r)
  /\ (forall r, invoke _ usageLogApi.query_api_usage args = Returned r ->
      usageLogApi.query invoke ToString apiKey baseUrl period = Returned r)
  /\ (forall r, invoke _ usageLogApi.query_model_stats args = Returned r ->
      usageLogApi.queryModelStats invoke ToString apiKey baseUrl period = Returned r)
  /\ (forall e, invoke _ usageLogApi.query_api_usage args = Thrown e ->
      exists r,
        usageLogApi.query invoke ToString apiKey baseUrl period = Returned r
        /\ UsageLogResult.success r = false
        /\ UsageLogResult.error r = Some (usageLogApi.error_text ToString e))
  /\ (forall e, invoke _ usageLogApi.query_model_stats args = Thrown e ->
      exists r,
        usageLogApi.queryModelStats invoke ToString apiKey baseUrl period = Returned r
        /\ ModelStatsResult.success r = false
        /\ ModelStatsResult.error r = Some (usageLogApi.error_text ToString e))
  /\ (forall s, usageLogApi.error_text ToString (VString s) = s)
  /\ (forall e, (forall s, e <> VString s) -> usageLogApi.error_text ToString e = ToString e)
  /\ (period = None -> usageLogApi.period args = "daily").
Proof.
  intros args.
  split; [apply query_returns|].
  split; [apply queryModelStats_returns|].
  split; [intros r H; unfold usageLogApi.query; fold args; now rewrite H|].
  split; [intros r H; unfold usageLogApi.queryModelStats; fold args; now rewrite H|].
  split.
  { intros e H. eexists. unfold usageLogApi.query. fold args. rewrite H.
    split; [reflexivity | split; reflexivity]. }
  split.
  { intros e H. eexists. unfold usageLogApi.queryModelStats. fold args. rewrite H.
    split; [reflexivity | split; reflexivity]. }
  split; [reflexivity|].
  split.
  { intros e He. destruct e; try reflexivity. now destruct (He s). }
  intros ->. reflexivity.
Qed.

End WrapperProperties.

(** ** [handleQuery] and the rendered sections *)

Section HandleQueryProperties.

Variable invoke : forall A : Type, usageLogApi.command A -> usageLogApi.InvokeArgs -> outcome A.
Variable ToString : value -> string.
Variable t : string -> string -> string.
Variable lower_other : string -> nat -> string.

Lemma handleQuery_updates (apiKey baseUrl : string) (period : Period) :
  all_space apiKey = false ->
  exists userResult modelResult,
    usageLogApi.query invoke ToString apiKey (Some baseUrl) (Some (period_text period))
    = Returned userResult
    /\ usageLogApi.queryModelStats invoke ToString apiKey (Some baseUrl)
         (Some (period_text period))
       = Returned modelResult
    /\ handleQuery invoke ToString apiKey baseUrl period
       = [setIsLoading true; setResult (Some userResult);
          setModelStats (Some modelResult); setIsLoading false].
Proof.
  intros Hkey. unfold handleQuery. rewrite Hkey.
  destruct (query_returns invoke ToString apiKey (Some baseUrl)
              (Some (period_text period))) as [u Hu].
  destruct (queryModelStats_returns invoke ToString apiKey (Some baseUrl)
              (Some (period_text period))) as [m Hm].
  exists u, m. rewrite Hu, Hm. repeat split.
Qed.

(** C6, amended. After a fetch the state holds the results of both wrappers,
    neither of which is cleared. When the overview query fails (its invocation
    rejects, the error then being the stringified exception, or it answers
    [success = false]) the error section shows that query's error text and
    none of the overview, the usage card and the per-model cards is shown;
    when the overview query succeeds no error is shown, whatever the per-model
    query did, and the per-model cards are those of the data the per-model
    result carries, none when its invocation rejected. *)
Theorem handleQuery_outcome
  (appId apiKey baseUrl : string) (period : Period) (st : State) :
  all_space apiKey = false ->
  let args :=
    usageLogApi.invoke_args apiKey (Some baseUrl) (Some (period_text period)) in
  let st' := run (handleQuery invoke ToString apiKey baseUrl period) st in
  let view := render lower_other t appId apiKey st' in
  exists userResult modelResult,
    usageLogApi.query invoke ToString apiKey (Some baseUrl) (Some (period_text period))
    = Returned userResult
    /\ usageLogApi.queryModelStats invoke ToString apiKey (Some baseUrl)
         (Some (period_text period))
       = Returned modelResult
    /\ isLoading st' = false
    /\ result st' = Some userResult
    /\ modelStats st' = Some modelResult
    /\ (forall e, invoke _ usageLogApi.query_api_usage args = Thrown e ->
        UsageLogResult.success userResult = false
        /\ UsageLogResult.error userResult
           = Some (usageLogApi.error_text ToString e))
    /\ (UsageLogResult.success userResult = false ->
        errorShown view
        = Some (usageLogApi.or_else (UsageLogResult.error userResult) (fun e => e)
                  (t "usageLog.error.unknown" "未知错误"))
        /\ dataShown view = None
        /\ usageCard view = None
        /\ modelCards view = [])
    /\ (UsageLogResult.success userResult = true ->
        errorShown view = None
        /\ dataShown view = UsageLogResult.data userResult
        /\ (UsageLogResult.data userResult <> None ->
            modelCards view
            = models lower_other appId
                match ModelStatsResult.data modelResult with
                | Some l => l
                | None => []
                end)
        /\ (forall e, invoke _ usageLogApi.query_model_stats args = Thrown e ->
            usageCard view = None /\ modelCards view = [])).
Proof.
  intros Hkey args st' view.
  destruct (handleQuery_updates apiKey baseUrl period Hkey) as [u [m [Hu [Hm Hq]]]].
  exists u, m. subst view st'. rewrite Hq. unfold run, render. simpl.
  repeat (split; [assumption || reflexivity |]).
  split.
  { intros e He. unfold usageLogApi.query in Hu. fold args in Hu. rewrite He in Hu.
    inversion Hu. split; reflexivity. }
  split.
  - intros ->. simpl. repeat split.
  - intros ->. simpl. repeat (split; [reflexivity |]). split.
    + intros Hdata. destruct (UsageLogResult.data u); [reflexivity | congruence].
    + intros e He. unfold usageLogApi.queryModelStats in Hm. fold args in Hm.
      rewrite He in Hm. inversion Hm. simpl.
      destruct (UsageLogResult.data u); split; reflexivity.
Qed.

End HandleQueryProperties.

(** Counterexample to C6 as stated. With a backend whose overview command
    answers [success = false], the state after the fetch still holds the
    per-model data of that fetch next to the error; with a backend whose
    per-model invocation rejects, the overview stays in the state and is
    shown, and no error message is shown. *)
Lemma handleQuery_keeps_results :
  (exists r,
     usageLogApi.query overview_refused sample_ToString "sk-token" (Some "https://relay")
       (Some "daily") = Returned r
     /\ UsageLogResult.success r = false)
  /\ option_map ModelStatsResult.data
       (modelStats (run (handleQuery overview_refused sample_ToString "sk-token"
                           "https://relay" daily) idle))
     = Some (Some [opus_item])
  /\ (exists r,
        usageLogApi.queryModelStats stats_rejected sample_ToString "sk-token"
          (Some "https://relay") (Some "daily") = Returned r
        /\ ModelStatsResult.success r = false
        /\ ModelStatsResult.error r = Some "timeout")
  /\ option_map UsageLogResult.data
       (result (run (handleQuery stats_rejected sample_ToString "sk-token"
                       "https://relay" daily) idle))
     = Some (Some sample_data)
  /\ errorShown
       (render keep_other sample_t "claude" "sk-token"
          (run (handleQuery stats_rejected sample_ToString "sk-token"
                  "https://relay" daily) idle))
     = None
  /\ dataShown
       (render keep_other sample_t "claude" "sk-token"
          (run (handleQuery stats_rejected sample_ToString "sk-token"
                  "https://relay" daily) idle))
     = Some sample_data.
Proof.
  split; [eexists; split; reflexivity |].
  split; [reflexivity |].
  split; [eexists; split; [reflexivity | split; reflexivity] |].
  repeat split.
Qed.

Lemma handleQuery_outcome_witness :
  all_space "sk-token" = false
  /\ exists userResult modelResult,
       usageLogApi.query overview_refused sample_ToString "sk-token"
         (Some "https://relay") (Some (period_text daily)) = Returned userResult
       /\ usageLogApi.queryModelStats overview_refused sample_ToString "sk-token"
            (Some "https://relay") (Some (period_text daily)) = Returned modelResult
       /\ isLoading (run (handleQuery overview_refused sample_ToString "sk-token"
                            "https://relay" daily) idle) = false
       /\ result (run (handleQuery overview_refused sample_ToString "sk-token"
                         "https://relay" daily) idle) = Some userResult
       /\ modelStats (run (handleQuery overview_refused sample_ToString "sk-token"
                             "https://relay" daily) idle) = Some modelResult.
Proof.
  split; [reflexivity |].
  destruct (handleQuery_outcome overview_refused sample_ToString sample_t keep_other
              "claude" "sk-token" "https://relay" daily idle eq_refl)
    as [u [m [Hu [Hm [Hl [Hr [Hs _]]]]]]].
  exists u, m. repeat split; assumption.
Defined.

(** ** Binary64 comparison, division and multiplication *)

Lemma is_nan_iff (x : float) : is_nan x = true <-> Prim2SF x = S754_nan.
Proof.
  unfold is_nan. rewrite eqb_spec.
  destruct (Prim2SF x) as [s|s| |s m e]; unfold SFeqb, SFcompare.
  - split; discriminate.
  - destruct s; split; discriminate.
  - split; reflexivity.
  - rewrite Z.compare_refl, Pos.compare_cont_refl. destruct s; split; discriminate.
Qed.












(** ** [calcProgress] *)



(** ** [toFixed] and [formatTokens] *)




Section FormatTokensProperties.

Variable Number_toString_other : float -> string.




End FormatTokensProperties.

(** ** The worked example of the specification *)

Example models_claude_example :
  models keep_other "claude" [opus_item; gpt_item] = [opus_item].
Proof. reflexivity. Qed.

Example models_mixed_case_example :
  models keep_other "claude" [gpt_item; sonnet_item; gemini_item; haiku_item]
  = [sonnet_item; haiku_item]
  /\ models keep_other "codex" [gpt_item; sonnet_item; gemini_item; haiku_item] = [gpt_item]
  /\ models keep_other "gemini" [gpt_item; sonnet_item; gemini_item; haiku_item] = [gemini_item]
  /\ models keep_other "opencode" [gpt_item; sonnet_item] = [gpt_item; sonnet_item].
Proof. repeat split. Qed.

(** With the Unicode lower-casing of the Kelvin sign the filter keeps an
    identifier that spells haiku with it. *)
Example models_kelvin_example :
  toLowerCase kelvin_lower kelvin_id = "haiku"
  /\ models kelvin_lower "claude" [item kelvin_id 1 1 1 0] = [item kelvin_id 1 1 1 0].
Proof. split; reflexivity. Qed.

Example periodUsage_claude_example :
  exists u,
    periodUsage (models keep_other "claude" [opus_item; gpt_item]) = Some u
    /\ PeriodUsage.requests u = 10%float
    /\ PeriodUsage.allTokens u = 150%float
    /\ PeriodUsage.cost u = 1.5%float.
Proof. eexists. repeat split. Qed.

Example extractApiKey_examples :
  extractApiKey sample_parse (Some claude_provider) "claude" = "sk-token"
  /\ extractApiKey sample_parse (Some claude_provider) "codex" = "sk-openai"
  /\ extractApiKey sample_parse (Some claude_provider) "gemini" = ""
  /\ extractApiKey sample_parse (Some broken_provider) "claude" = ""
  /\ extractApiKey sample_parse None "claude" = "".
Proof. repeat split. Qed.

Example toFixed_examples (other : float -> string) :
  toFixed other 1.005 2 = "1.00"
  /\ toFixed other 8.345 2 = "8.35"
  /\ toFixed other 0.25 1 = "0.3"
  /\ toFixed other 999.95 1 = "1000.0"
  /\ toFixed other (-0.001) 2 = "-0.00"
  /\ formatTokens other (Some 999999%float) = "1000.0K"
  /\ formatTokens other (Some 1005000%float) = "1.00M".
Proof. repeat split. Qed.

(** * Further properties of the panel *)

(** ** [trim] *)
























Lemma trim_empty_iff (s : string) : trim s = "" <-> all_space s = true.
Proof. unfold all_space. now rewrite String.eqb_eq. Qed.



(** [trim] takes off ASCII white space, the no-break space U+00A0, the
    ideographic space U+3000, the byte order mark U+FEFF and the line
    separator U+2028; it keeps the zero-width space U+200B and the next-line
    control U+0085, which are not white space. *)
Example trim_examples :
  trim "  sk-key	 " = "sk-key"
  /\ trim (utf8 [194; 160] ++ "a b" ++ utf8 [227; 128; 128; 10]) = "a b"
  /\ trim (utf8 [239; 187; 191] ++ "k" ++ utf8 [226; 128; 168]) = "k"
  /\ trim (utf8 [226; 128; 139] ++ "k" ++ utf8 [194; 133])
     = utf8 [226; 128; 139] ++ "k" ++ utf8 [194; 133]
  /\ all_space (utf8 [32; 226; 128; 137; 13]) = true
  /\ all_space "" = true.
Proof. repeat split; reflexivity. Qed.

(** ** [extractWebsiteUrl] *)

Lemma extractWebsiteUrl_nonempty (provider : option Provider) :
  extractWebsiteUrl provider <> ""
  /\ (extractWebsiteUrl provider = DEFAULT_BASE_URL
      \/ exists p url,
           provider = Some p /\ websiteUrl p = Some url
           /\ all_space url = false /\ extractWebsiteUrl provider = trim url).
Proof.
  unfold extractWebsiteUrl.
  destruct provider as [p|]; [|split; [discriminate | now left]].
  destruct (websiteUrl p) as [url|] eqn:Hurl; [|split; [discriminate | now left]].
  destruct (url =? ""); [split; [discriminate | now left] |].
  destruct (trim url =? "") eqn:E; [split; [discriminate | now left] |].
  split; [now apply String.eqb_neq in E |].
  right. exists p, url. repeat split; try assumption.
Qed.



(** A [websiteUrl] between a no-break space and an ideographic space. *)
Example extractWebsiteUrl_example :
  extractWebsiteUrl
    (Some {| name := "Relay"; settingsConfig := VUndefined;
             websiteUrl := Some (utf8 [194; 160; 32] ++ "https://api.example"
                                 ++ utf8 [227; 128; 128; 10]) |})
  = "https://api.example".
Proof. reflexivity. Qed.

(** ** Model badges *)

(** X2. The badge colour and the badge name go together: violet, blue and
    green badges are named Opus, Sonnet and Haiku, with opus taking precedence
    over sonnet and sonnet over haiku, and the badge is grey exactly when it
    shows the raw identifier. The match is case-sensitive. *)
Theorem badge_consistent (model : string) :
  (includes model "opus" = true ->
   getModelDisplayName model = "Opus"
   /\ ColorStyle.text (getModelColorStyle model) = "#7c3aed")
  /\ (includes model "opus" = false -> includes model "sonnet" = true ->
      getModelDisplayName model = "Sonnet"
      /\ ColorStyle.text (getModelColorStyle model) = "#2563eb")
  /\ (includes model "opus" = false -> includes model "sonnet" = false ->
      includes model "haiku" = true ->
      getModelDisplayName model = "Haiku"
      /\ ColorStyle.text (getModelColorStyle model) = "#059669")
  /\ (ColorStyle.text (getModelColorStyle model) = "#4b5563"
      <-> getModelDisplayName model = model).
Proof.
  unfold getModelDisplayName, getModelColorStyle.
  destruct (includes model "opus") eqn:Ho;
    [|destruct (includes model "sonnet") eqn:Hs;
      [|destruct (includes model "haiku") eqn:Hh]]; simpl.
  all: repeat split; try discriminate; try reflexivity; try (intros; discriminate).
  - intros <-. discriminate.
  - intros <-. discriminate.
  - intros <-. discriminate.
Qed.

Lemma text_match_refl (s : string) : text_match s s.
Proof. induction s as [|c s IH]; constructor; [now apply letter_same | exact IH]. Qed.

Lemma includes_lower_keyword (lower_other : string -> nat -> string) (id kw : string) :
  plain_text kw = true -> includes id kw = true ->
  includes (toLowerCase lower_other id) kw = true.
Proof.
  intros Hkw H. apply contains_ci_includes; [exact Hkw |].
  apply includes_iff in H. destruct H as [pre [suf ->]].
  exists pre, kw, suf. split; [reflexivity | apply text_match_refl].
Qed.

(** X3. Every model that gets a family badge (a display name other than its
    identifier) is kept by the filter of the claude application. *)
Theorem badge_kept_for_claude
  (lower_other : string -> nat -> string) (m : ModelStatsItem.t) :
  getModelDisplayName (ModelStatsItem.model m) <> ModelStatsItem.model m ->
  keep_model lower_other "claude" m = true.
Proof.
  unfold getModelDisplayName, keep_model. simpl.
  destruct (includes (ModelStatsItem.model m) "opus") eqn:Ho.
  { intros _. rewrite (includes_lower_keyword lower_other _ "opus" eq_refl Ho).
    now rewrite !orb_true_r. }
  destruct (includes (ModelStatsItem.model m) "sonnet") eqn:Hs.
  { intros _. rewrite (includes_lower_keyword lower_other _ "sonnet" eq_refl Hs).
    now rewrite !orb_true_r. }
  destruct (includes (ModelStatsItem.model m) "haiku") eqn:Hh.
  { intros _. rewrite (includes_lower_keyword lower_other _ "haiku" eq_refl Hh).
    now rewrite !orb_true_r. }
  intros H. now destruct H.
Qed.

Lemma badge_kept_for_claude_witness : keep_model keep_other "claude" opus_item = true.
Proof. apply badge_kept_for_claude. discriminate. Defined.

(** ** Aggregates *)

Lemma allModelsCost_cost_of (l : list ModelStatsItem.t) : allModelsCost l = cost_of l.
Proof.
  unfold allModelsCost, cost_of. generalize 0%float.
  induction l as [|m l IH]; intros acc; simpl; [reflexivity | apply IH].
Qed.

Lemma periodUsage_none_iff (l : list ModelStatsItem.t) : periodUsage l = None <-> l = [].
Proof.
  destruct l as [|m k]; [split; reflexivity | rewrite periodUsage_cons; split; discriminate].
Qed.

(** X4. The cost of the usage card computed over a list is the monthly cost
    [allModelsCost] of that list, and there is a usage card exactly when the
    list is not empty; for an application without a model family the list is
    the unfiltered one, so both cost figures agree. *)
Theorem periodUsage_cost_allModelsCost
  (lower_other : string -> nat -> string)
  (appId : string) (l : list ModelStatsItem.t) :
  option_map PeriodUsage.cost (periodUsage l)
  = match l with
    | [] => None
    | _ => Some (allModelsCost l)
    end
  /\ (periodUsage l = None <-> l = [])
  /\ (family appId = None ->
      option_map PeriodUsage.cost (periodUsage (models lower_other appId l))
      = match l with
        | [] => None
        | _ => Some (allModelsCost l)
        end).
Proof.
  assert (forall k, option_map PeriodUsage.cost (periodUsage k)
                    = match k with [] => None | _ => Some (allModelsCost k) end) as H.
  { intros [|m k]; [reflexivity |].
    rewrite periodUsage_cons, fold_add_item, allModelsCost_cost_of. reflexivity. }
  split; [apply H | split].
  - apply periodUsage_none_iff.
  - intros Hnone.
    assert (models lower_other appId l = l) as ->; [|apply H].
    unfold models. apply forallb_filter_id. apply forallb_forall.
    intros m _. apply keep_model_iff. unfold relevant. now rewrite Hnone.
Qed.

Lemma total_of_filter_le (f : ModelStatsItem.t -> float) (g : ModelStatsItem.t -> bool)
  (l : list ModelStatsItem.t) :
  Forall (fun m => is_count (f m)) l -> (total_of f (filter g l) <= total_of f l)%Z.
Proof.
  unfold total_of. induction 1 as [|x l [Hx _] _ IH]; simpl; [lia |].
  destruct (g x); simpl; lia.
Qed.

Lemma total_of_member_le (f : ModelStatsItem.t -> float) (l : list ModelStatsItem.t)
  (m : ModelStatsItem.t) :
  Forall (fun x => is_count (f x)) l -> In m l -> (count (f m) <= total_of f l)%Z.
Proof.
  intros H Hin. induction H as [|x l [Hx _] Hl IH]; [destruct Hin |].
  pose proof (total_of_nonneg f l Hl).
  change (total_of f (x :: l)) with (count (f x) + total_of f l)%Z.
  destruct Hin as [-> | Hin]; [lia |]. specialize (IH Hin). lia.
Qed.

Lemma Forall_filter {A : Type} (P : A -> Prop) (g : A -> bool) (l : list A) :
  Forall P l -> Forall P (filter g l).
Proof.
  induction 1 as [|x l Hx _ IH]; simpl; [constructor |].
  destruct (g x); [now constructor | exact IH].
Qed.

(** X5. When every counter is a non-negative integer and the six totals over
    the whole list are below 2^53, the counters of the filtered aggregate
    never exceed those of the aggregate of the whole list, and the counters
    of any single item never exceed those of an aggregate that includes it. *)
Theorem periodUsage_bounds
  (lower_other : string -> nat -> string)
  (appId : string) (allModels : list ModelStatsItem.t) :
  Forall counted allModels -> within_safe allModels ->
  (forall u, periodUsage (models lower_other appId allModels) = Some u ->
   exists v, periodUsage allModels = Some v /\ counters_le u v)
  /\ (forall m, In m allModels ->
      exists v,
        periodUsage allModels = Some v
        /\ (ModelStatsItem.requests m <=? PeriodUsage.requests v)%float = true
        /\ (ModelStatsItem.inputTokens m <=? PeriodUsage.inputTokens v)%float = true
        /\ (ModelStatsItem.outputTokens m <=? PeriodUsage.outputTokens v)%float = true
        /\ (ModelStatsItem.cacheCreateTokens m <=? PeriodUsage.cacheCreateTokens v)%float
           = true
        /\ (ModelStatsItem.cacheReadTokens m <=? PeriodUsage.cacheReadTokens v)%float
           = true
        /\ (ModelStatsItem.allTokens m <=? PeriodUsage.allTokens v)%float = true).
Proof.
  intros Hc Hs.
  assert (forall f, (forall m, counted m -> is_count (f m)) ->
          Forall (fun m => is_count (f m)) allModels) as Hf
    by (intros f H; now apply Forall_counted_field).
  pose proof (Hf _ (fun m H => proj1 H)) as F1.
  pose proof (Hf _ (fun m H => proj1 (proj2 H))) as F2.
  pose proof (Hf _ (fun m H => proj1 (proj2 (proj2 H)))) as F3.
  pose proof (Hf _ (fun m H => proj1 (proj2 (proj2 (proj2 H))))) as F4.
  pose proof (Hf _ (fun m H => proj1 (proj2 (proj2 (proj2 (proj2 H)))))) as F5.
  pose proof (Hf _ (fun m H => proj2 (proj2 (proj2 (proj2 (proj2 H)))))) as F6.
  destruct Hs as [S1 [S2 [S3 [S4 [S5 S6]]]]].
  split.
  - intros u Hu. destruct allModels as [|a l]; [discriminate |].
    destruct (periodUsage_exact a l Hc (conj S1 (conj S2 (conj S3 (conj S4 (conj S5 S6))))))
      as [v [Hv [V1 [V2 [V3 [V4 [V5 V6]]]]]]].
    exists v. split; [exact Hv |].
    pose proof (total_of_filter_le _ (keep_model lower_other appId) _ F1) as L1.
    pose proof (total_of_filter_le _ (keep_model lower_other appId) _ F2) as L2.
    pose proof (total_of_filter_le _ (keep_model lower_other appId) _ F3) as L3.
    pose proof (total_of_filter_le _ (keep_model lower_other appId) _ F4) as L4.
    pose proof (total_of_filter_le _ (keep_model lower_other appId) _ F5) as L5.
    pose proof (total_of_filter_le _ (keep_model lower_other appId) _ F6) as L6.
    fold (models lower_other appId (a :: l)) in L1, L2, L3, L4, L5, L6.
    pose proof (Forall_filter _ (keep_model lower_other appId) _ Hc) as Hck.
    fold (models lower_other appId (a :: l)) in Hck.
    destruct (models lower_other appId (a :: l)) as [|b k] eqn:E; [discriminate |].
    assert (within_safe (b :: k)) as Hsk by (unfold within_safe; lia).
    destruct (periodUsage_exact b k Hck Hsk) as [u' [Hu' [U1 [U2 [U3 [U4 [U5 U6]]]]]]].
    rewrite Hu in Hu'. inversion Hu'; subst u'.
    pose proof (total_of_nonneg _ _ (Forall_counted_field _ _ (fun m H => proj1 H) Hck)).
    pose proof (total_of_nonneg _ _
                  (Forall_counted_field _ _ (fun m H => proj1 (proj2 H)) Hck)).
    pose proof (total_of_nonneg _ _
                  (Forall_counted_field _ _ (fun m H => proj1 (proj2 (proj2 H))) Hck)).
    pose proof (total_of_nonneg _ _
                  (Forall_counted_field _ _
                     (fun m H => proj1 (proj2 (proj2 (proj2 H)))) Hck)).
    pose proof (total_of_nonneg _ _
                  (Forall_counted_field _ _
                     (fun m H => proj1 (proj2 (proj2 (proj2 (proj2 H))))) Hck)).
    pose proof (total_of_nonneg _ _
                  (Forall_counted_field _ _
                     (fun m H => proj2 (proj2 (proj2 (proj2 (proj2 H))))) Hck)).
    unfold counters_le. rewrite U1, U2, U3, U4, U5, U6, V1, V2, V3, V4, V5, V6.
    repeat split; apply number_le; lia.
  - intros m Hin. destruct allModels as [|a l]; [destruct Hin |].
    destruct (periodUsage_exact a l Hc (conj S1 (conj S2 (conj S3 (conj S4 (conj S5 S6))))))
      as [v [Hv [V1 [V2 [V3 [V4 [V5 V6]]]]]]].
    exists v. split; [exact Hv |].
    rewrite Forall_forall in Hc.
    destruct (Hc m Hin) as [[N1 E1] [[N2 E2] [[N3 E3] [[N4 E4] [[N5 E5] [N6 E6]]]]]].
    pose proof (total_of_member_le _ _ m F1 Hin).
    pose proof (total_of_member_le _ _ m F2 Hin).
    pose proof (total_of_member_le _ _ m F3 Hin).
    pose proof (total_of_member_le _ _ m F4 Hin).
    pose proof (total_of_member_le _ _ m F5 Hin).
    pose proof (total_of_member_le _ _ m F6 Hin).
    rewrite V1, V2, V3, V4, V5, V6.
    rewrite E1 at 1. rewrite E2 at 1. rewrite E3 at 1.
    rewrite E4 at 1. rewrite E5 at 1. rewrite E6 at 1.
    repeat split; apply number_le; lia.
Qed.

Lemma periodUsage_bounds_witness :
  (forall u, periodUsage (models keep_other "claude" [opus_item; gpt_item]) = Some u ->
   exists v, periodUsage [opus_item; gpt_item] = Some v /\ counters_le u v)
  /\ (forall m, In m [opus_item; gpt_item] ->
      exists v,
        periodUsage [opus_item; gpt_item] = Some v
        /\ (ModelStatsItem.requests m <=? PeriodUsage.requests v)%float = true
        /\ (ModelStatsItem.inputTokens m <=? PeriodUsage.inputTokens v)%float = true
        /\ (ModelStatsItem.outputTokens m <=? PeriodUsage.outputTokens v)%float = true
        /\ (ModelStatsItem.cacheCreateTokens m <=? PeriodUsage.cacheCreateTokens v)%float
           = true
        /\ (ModelStatsItem.cacheReadTokens m <=? PeriodUsage.cacheReadTokens v)%float
           = true
        /\ (ModelStatsItem.allTokens m <=? PeriodUsage.allTokens v)%float = true).
Proof.
  apply (periodUsage_bounds keep_other "claude" [opus_item; gpt_item]).
  - repeat constructor; vm_compute; intuition discriminate.
  - unfold within_safe. vm_compute. intuition.
Defined.

(** ** Rendered sections *)

Section RenderProperties.

Variable t : string -> string -> string.
Variable lower_other : string -> nat -> string.

(** X6. A render shows at most one of the loader, the error section, the
    not-configured section and the data section. It shows none of them
    exactly when nothing is loading and either there is no result although a
    key is configured, or the result is a success without data. The usage
    card and the model cards appear only inside the data section, and
    together: there is a usage card exactly when there is a model card, and
    it is the aggregate of exactly the model cards shown. *)
Theorem render_sections (appId apiKey : string) (st : State) :
  let view := render lower_other t appId apiKey st in
  (shown_sections view <= 1)%nat
  /\ (shown_sections view = 0%nat <->
      isLoading st = false
      /\ ((result st = None /\ apiKey <> "")
          \/ exists r, result st = Some r
                       /\ UsageLogResult.success r = true
                       /\ UsageLogResult.data r = None))
  /\ (dataShown view = None -> usageCard view = None /\ modelCards view = [])
  /\ (usageCard view = None <-> modelCards view = [])
  /\ usageCard view = periodUsage (modelCards view).
Proof.
  unfold shown_sections, render. simpl.
  destruct (isLoading st) eqn:Hl; simpl;
  [destruct (result st) as [r|] eqn:Hr; simpl
  |destruct (result st) as [r|] eqn:Hr; simpl;
    [destruct (UsageLogResult.success r) eqn:Hs; simpl;
      [destruct (UsageLogResult.data r) as [d|] eqn:Hd; simpl|]
    |destruct (String.eqb_spec apiKey "") as [Hk|Hk]; simpl]].
  all: repeat split; intros; try lia; try discriminate; try reflexivity; try tauto.
  all: try (apply periodUsage_none_iff; assumption).
  all: try (right; eexists; repeat split; eassumption).
  all: try (left; split; [reflexivity | assumption]).
  all: match goal with
       | H : _ /\ _ |- _ => destruct H as [? [[? ?] | [? [? [? ?]]]]]; congruence
       end.
Qed.

(** X7. While [isLoading] is set, a render shows the loader and nothing else:
    no error, no not-configured notice, no data of an earlier fetch. *)
Theorem render_loading (appId apiKey : string) (st : State) :
  isLoading st = true ->
  let view := render lower_other t appId apiKey st in
  loadingShown view = true
  /\ errorShown view = None
  /\ notConfiguredShown view = false
  /\ dataShown view = None
  /\ usageCard view = None
  /\ modelCards view = [].
Proof.
  intros Hl. unfold render. simpl. rewrite Hl. simpl.
  destruct (result st); repeat split.
Qed.

End RenderProperties.

Lemma render_loading_witness :
  loadingShown (render keep_other sample_t "claude" "sk-token" loading_state) = true
  /\ dataShown (render keep_other sample_t "claude" "sk-token" loading_state) = None.
Proof.
  destruct (render_loading sample_t keep_other "claude" "sk-token" loading_state eq_refl)
    as [H1 [_ [_ [H4 _]]]].
  split; assumption.
Defined.

(** ** [handleQuery], [handlePeriodChange] and the key effect *)

Section HandlerProperties.

Variable invoke : forall A : Type, usageLogApi.command A -> usageLogApi.InvokeArgs -> outcome A.
Variable ToString : value -> string.
Variable t : string -> string -> string.
Variable lower_other : string -> nat -> string.

Lemma all_space_false_nonempty (s : string) : all_space s = false -> (s =? "") = false.
Proof. now destruct s. Qed.

(** X8. [handleQuery] makes no setter call and no invocation exactly when the
    trimmed key is empty. Otherwise the loader is switched on first and stays
    on until the last setter call: after every proper non-empty prefix of its
    setter calls [isLoading] holds, and after all of them it does not. *)
Theorem handleQuery_loading (apiKey baseUrl : string) (period : Period) (st : State) :
  let updates := handleQuery invoke ToString apiKey baseUrl period in
  (updates = [] <-> trim apiKey = "")
  /\ (trim apiKey <> "" ->
      List.length updates = 4%nat
      /\ (forall k, (1 <= k <= 3)%nat -> isLoading (run (firstn k updates) st) = true)
      /\ isLoading (run updates st) = false).
Proof.
  intros updates. subst updates. rewrite trim_empty_iff. split.
  - unfold handleQuery. destruct (all_space apiKey); split; try reflexivity; discriminate.
  - intros Hne. assert (all_space apiKey = false) as Hkey by now destruct (all_space apiKey).
    destruct (handleQuery_updates invoke ToString apiKey baseUrl period Hkey)
      as [u [m [_ [_ ->]]]].
    split; [reflexivity | split; [|reflexivity]].
    intros k Hk. assert (k = 1 \/ k = 2 \/ k = 3)%nat as [-> | [-> | ->]] by lia;
      reflexivity.
Qed.

(** X9. With a key that is not blank, [handlePeriodChange] is [setPeriod]
    followed by the setter calls of [handleQuery] for the new period, so it
    ends with the new period selected and the loader off. With an empty key
    it only selects the period. With a key that is not empty but blank it
    still fetches, where [handleQuery] does nothing. *)
Theorem handlePeriodChange_handleQuery
  (apiKey baseUrl : string) (newPeriod : Period) (st : State) :
  (all_space apiKey = false ->
   handlePeriodChange invoke ToString apiKey baseUrl newPeriod
   = setPeriod newPeriod :: handleQuery invoke ToString apiKey baseUrl newPeriod)
  /\ (apiKey = "" ->
      handlePeriodChange invoke ToString apiKey baseUrl newPeriod = [setPeriod newPeriod])
  /\ (apiKey <> "" -> all_space apiKey = true ->
      handleQuery invoke ToString apiKey baseUrl newPeriod = []
      /\ List.length (handlePeriodChange invoke ToString apiKey baseUrl newPeriod) = 5%nat)
  /\ period (run (handlePeriodChange invoke ToString apiKey baseUrl newPeriod) st) = newPeriod
  /\ (apiKey <> "" ->
      isLoading (run (handlePeriodChange invoke ToString apiKey baseUrl newPeriod) st)
      = false).
Proof.
  assert (forall k, k <> "" ->
          exists u m,
            handlePeriodChange invoke ToString k baseUrl newPeriod
            = [setPeriod newPeriod; setIsLoading true; setResult (Some u);
               setModelStats (Some m); setIsLoading false]) as Hfetch.
  { intros k Hk. apply String.eqb_neq in Hk. unfold handlePeriodChange. rewrite Hk.
    destruct (query_returns invoke ToString k (Some baseUrl)
                (Some (period_text newPeriod))) as [u Hu].
    destruct (queryModelStats_returns invoke ToString k (Some baseUrl)
                (Some (period_text newPeriod))) as [m Hm].
    exists u, m. now rewrite Hu, Hm. }
  split; [|split; [|split; [|split]]].
  - intros Hkey. unfold handlePeriodChange, handleQuery.
    now rewrite Hkey, (all_space_false_nonempty _ Hkey).
  - intros ->. reflexivity.
  - intros Hne Hblank. split.
    + unfold handleQuery. now rewrite Hblank.
    + destruct (Hfetch apiKey Hne) as [u [m ->]]. reflexivity.
  - destruct (String.eqb_spec apiKey "") as [-> | Hne]; [reflexivity |].
    destruct (Hfetch apiKey Hne) as [u [m ->]]. reflexivity.
  - intros Hne. destruct (Hfetch apiKey Hne) as [u [m ->]]. reflexivity.
Qed.

(** X10. The key effect clears both results for an empty key, after which an
    idle panel shows the not-configured section and nothing else; for a key
    that is not empty but blank it changes nothing, so results of an earlier
    key stay in the state. *)
Theorem key_effect_clears (appId apiKey baseUrl : string) (period : Period) (st : State) :
  (apiKey = "" ->
   let st' := run (key_effect invoke ToString apiKey baseUrl period) st in
   result st' = None
   /\ modelStats st' = None
   /\ isLoading st' = isLoading st
   /\ (isLoading st = false ->
       let view := render lower_other t appId apiKey st' in
       notConfiguredShown view = true
       /\ loadingShown view = false
       /\ errorShown view = None
       /\ dataShown view = None
       /\ modelCards view = []))
  /\ (apiKey <> "" -> all_space apiKey = true ->
      run (key_effect invoke ToString apiKey baseUrl period) st = st).
Proof.
  split.
  - intros ->. simpl. split; [reflexivity |]. split; [reflexivity |].
    split; [reflexivity |]. intros Hl. unfold render. simpl. rewrite Hl.
    repeat split.
  - intros Hne Hblank. apply String.eqb_neq in Hne.
    unfold key_effect, handleQuery. now rewrite Hne, Hblank.
Qed.

End HandlerProperties.

(** ** More on [extractApiKey] *)

Section ExtractApiKeyMore.

Variable JSON_parse : string -> option value.

Lemma get_prop_coalesce (v : value) (k : string) :
  get_prop (coalesce v (VObject [])) k = Some (lookup k (mapping_or_empty v)).
Proof. destruct v; reflexivity. Qed.

Lemma extractApiKey_try_slots
  (parse : string -> option value) (sc : value) (appId : string) :
  extractApiKey_try parse sc appId
  = match (match sc with VString s => parse s | _ => Some sc end) with
    | None => None
    | Some config =>
        let env := mapping_or_empty (get_opt config "env") in
        let auth := mapping_or_empty (get_opt config "auth") in
        Some (if appId =? "gemini" then string_or_empty (lookup "GEMINI_API_KEY" env)
              else if appId =? "codex" then string_or_empty (lookup "OPENAI_API_KEY" auth)
              else match lookup "ANTHROPIC_AUTH_TOKEN" env with
                   | VString token => token
                   | _ => string_or_empty (lookup "ANTHROPIC_API_KEY" env)
                   end)
    end.
Proof.
  unfold extractApiKey_try.
  destruct (match sc with VString s => parse s | _ => Some sc end) as [config|];
    [|reflexivity].
  cbv zeta. rewrite !get_prop_coalesce.
  destruct (appId =? "gemini"); [reflexivity |].
  destruct (appId =? "codex"); reflexivity.
Qed.

(** X11. Any application identifier other than gemini and codex is handled
    as claude: it reads the same two variables with the same result. *)
Theorem extractApiKey_default_app (provider : option Provider) (appId : string) :
  appId <> "gemini" -> appId <> "codex" ->
  extractApiKey JSON_parse provider appId = extractApiKey JSON_parse provider "claude".
Proof.
  intros Hg Hc. apply String.eqb_neq in Hg, Hc.
  unfold extractApiKey. destruct provider as [p|]; [|reflexivity].
  destruct (negb (truthy (settingsConfig p))); [reflexivity |].
  rewrite !extractApiKey_try_slots.
  destruct (match settingsConfig p with VString s => JSON_parse s | _ => Some _ end);
    [|reflexivity].
  cbv zeta. now rewrite Hg, Hc.
Qed.

(** X12. Settings given as JSON text yield the same credential as the parsed
    settings given directly, whenever the parsed value is a truthy value
    other than a string (an object, in practice). *)
Theorem extractApiKey_text_or_object
  (p q : Provider) (s : string) (config : value) (appId : string) :
  settingsConfig p = VString s -> s <> "" -> JSON_parse s = Some config ->
  settingsConfig q = config -> truthy config = true ->
  (forall s', config <> VString s') ->
  extractApiKey JSON_parse (Some p) appId = extractApiKey JSON_parse (Some q) appId.
Proof.
  intros Hp Hs Hparse Hq Htruthy Hnot.
  rewrite (extractApiKey_payload JSON_parse p appId config)
    by (now apply payload_text with s).
  rewrite (extractApiKey_payload JSON_parse q appId config)
    by (now apply payload_direct).
  reflexivity.
Qed.

(** X13. [extractApiKey] never makes up a credential: a result other than
    the empty string is a string stored in the settings payload, in [env] or
    [auth], under one of the four variable names. In the default branch an
    [ANTHROPIC_AUTH_TOKEN] that is a string, even the empty one, takes
    precedence over [ANTHROPIC_API_KEY]. *)
Theorem extractApiKey_from_payload (p : Provider) (appId : string) :
  (extractApiKey JSON_parse (Some p) appId = ""
   \/ exists config,
        payload JSON_parse p config
        /\ In (VString (extractApiKey JSON_parse (Some p) appId))
              (credential_slots config))
  /\ (forall config token,
        payload JSON_parse p config -> appId <> "gemini" -> appId <> "codex" ->
        lookup "ANTHROPIC_AUTH_TOKEN" (mapping_or_empty (get_opt config "env"))
        = VString token ->
        extractApiKey JSON_parse (Some p) appId = token).
Proof.
  split.
  - unfold extractApiKey.
    destruct (truthy (settingsConfig p)) eqn:Htruthy; simpl; [|now left].
    rewrite extractApiKey_try_slots.
    destruct (match settingsConfig p with VString s => JSON_parse s | _ => Some _ end)
      as [config|] eqn:Hcfg; [|now left].
    assert (payload JSON_parse p config) as Hpay.
    { destruct (settingsConfig p) as [| | | |s| |] eqn:Hsc;
        try (inversion Hcfg; subst config; apply payload_direct;
             [exact Hsc | exact Htruthy | discriminate]).
      apply payload_text with s; [exact Hsc | | exact Hcfg].
      intros ->. discriminate Htruthy. }
    cbv zeta.
    set (env := mapping_or_empty (get_opt config "env")).
    set (auth := mapping_or_empty (get_opt config "auth")).
    assert (forall v, In v (credential_slots config) ->
            string_or_empty v = "" \/ In (VString (string_or_empty v)) (credential_slots config))
      as Hslot.
    { intros v Hv. destruct v; simpl; auto. }
    assert (forall v, In v (credential_slots config) ->
            string_or_empty v = ""
            \/ exists c, payload JSON_parse p c
                         /\ In (VString (string_or_empty v)) (credential_slots c)) as Hs.
    { intros v Hv. destruct (Hslot v Hv); [now left | right; now exists config]. }
    destruct (appId =? "gemini"); [apply Hs; simpl; tauto |].
    destruct (appId =? "codex"); [apply Hs; simpl; tauto |].
    destruct (lookup "ANTHROPIC_AUTH_TOKEN" env) as [| | | |tok| |] eqn:Ht;
      try (apply Hs; simpl; tauto).
    destruct (String.eqb_spec tok ""); [now left |].
    right. exists config. split; [exact Hpay |].
    unfold credential_slots. fold env auth. rewrite Ht. simpl. tauto.
  - intros config token Hpay Hg Hc Htoken. apply String.eqb_neq in Hg, Hc.
    rewrite (extractApiKey_payload JSON_parse p appId config Hpay).
    rewrite extractApiKey_try_slots. cbv zeta. now rewrite Hg, Hc, Htoken.
Qed.

End ExtractApiKeyMore.

Lemma extractApiKey_default_app_witness :
  extractApiKey sample_parse (Some claude_provider) "opencode"
  = extractApiKey sample_parse (Some claude_provider) "claude".
Proof.
  apply (extractApiKey_default_app sample_parse (Some claude_provider) "opencode");
    discriminate.
Defined.

Lemma extractApiKey_text_or_object_witness :
  extractApiKey sample_parse (Some text_provider) "claude"
  = extractApiKey sample_parse (Some empty_provider) "claude".
Proof.
  apply (extractApiKey_text_or_object sample_parse text_provider empty_provider
           "{}" (VObject []) "claude");
    try reflexivity; discriminate.
Defined.

(** ** Arguments of the invocations *)

Section InvocationProperties.

Variable ToString : value -> string.

(** X14. The one invocation a wrapper makes carries the key as given, [null]
    as base URL when the [baseUrl] argument is absent or empty and that
    argument otherwise, and ["daily"] as period when the [period] argument is
    absent or empty and that argument otherwise. So the wrappers treat an
    absent and an empty [baseUrl] alike, and an absent, an empty and a
    ["daily"] period alike, and the arguments sent never hold an empty base
    URL or an empty period. *)
Theorem wrappers_normalise_arguments
  (invoke : forall A : Type, usageLogApi.command A -> usageLogApi.InvokeArgs -> outcome A)
  (apiKey : string) (baseUrl period : option string) :
  usageLogApi.query invoke ToString apiKey None period
  = usageLogApi.query invoke ToString apiKey (Some "") period
  /\ usageLogApi.queryModelStats invoke ToString apiKey None period
     = usageLogApi.queryModelStats invoke ToString apiKey (Some "") period
  /\ usageLogApi.query invoke ToString apiKey baseUrl None
     = usageLogApi.query invoke ToString apiKey baseUrl (Some "daily")
  /\ usageLogApi.query invoke ToString apiKey baseUrl (Some "")
     = usageLogApi.query invoke ToString apiKey baseUrl (Some "daily")
  /\ usageLogApi.queryModelStats invoke ToString apiKey baseUrl None
     = usageLogApi.queryModelStats invoke ToString apiKey baseUrl (Some "daily")
  /\ usageLogApi.queryModelStats invoke ToString apiKey baseUrl (Some "")
     = usageLogApi.queryModelStats invoke ToString apiKey baseUrl (Some "daily")
  /\ usageLogApi.baseUrl (usageLogApi.invoke_args apiKey baseUrl period) <> Some ""
  /\ usageLogApi.period (usageLogApi.invoke_args apiKey baseUrl period) <> ""
  /\ usageLogApi.apiKey (usageLogApi.invoke_args apiKey baseUrl period) = apiKey
  /\ usageLogApi.baseUrl (usageLogApi.invoke_args apiKey None period) = None
  /\ usageLogApi.baseUrl (usageLogApi.invoke_args apiKey (Some "") period) = None
  /\ (forall b, b <> "" ->
      usageLogApi.baseUrl (usageLogApi.invoke_args apiKey (Some b) period) = Some b)
  /\ usageLogApi.period (usageLogApi.invoke_args apiKey baseUrl None) = "daily"
  /\ usageLogApi.period (usageLogApi.invoke_args apiKey baseUrl (Some "")) = "daily"
  /\ (forall q, q <> "" ->
      usageLogApi.period (usageLogApi.invoke_args apiKey baseUrl (Some q)) = q)
  /\ (forall r,
        invoke _ usageLogApi.query_api_usage
          {| usageLogApi.apiKey := apiKey;
             usageLogApi.baseUrl := None;
             usageLogApi.period := "daily" |} = Returned r ->
        usageLogApi.query invoke ToString apiKey None None = Returned r
        /\ usageLogApi.query invoke ToString apiKey (Some "") (Some "") = Returned r)
  /\ (forall r,
        invoke _ usageLogApi.query_model_stats
          {| usageLogApi.apiKey := apiKey;
             usageLogApi.baseUrl := None;
             usageLogApi.period := "daily" |} = Returned r ->
        usageLogApi.queryModelStats invoke ToString apiKey None None = Returned r
        /\ usageLogApi.queryModelStats invoke ToString apiKey (Some "") (Some "")
           = Returned r)
  /\ (forall b q r,
        b <> "" -> q <> "" ->
        invoke _ usageLogApi.query_api_usage
          {| usageLogApi.apiKey := apiKey;
             usageLogApi.baseUrl := Some b;
             usageLogApi.period := q |} = Returned r ->
        usageLogApi.query invoke ToString apiKey (Some b) (Some q) = Returned r)
  /\ (forall b q r,
        b <> "" -> q <> "" ->
        invoke _ usageLogApi.query_model_stats
          {| usageLogApi.apiKey := apiKey;
             usageLogApi.baseUrl := Some b;
             usageLogApi.period := q |} = Returned r ->
        usageLogApi.queryModelStats invoke ToString apiKey (Some b) (Some q)
        = Returned r).
Proof.
  assert (forall b q, b <> "" -> q <> "" ->
          usageLogApi.invoke_args apiKey (Some b) (Some q)
          = {| usageLogApi.apiKey := apiKey;
               usageLogApi.baseUrl := Some b;
               usageLogApi.period := q |}) as Hargs.
  { intros b q Hb Hq. unfold usageLogApi.invoke_args, usageLogApi.or_else.
    apply String.eqb_neq in Hb, Hq. now rewrite Hb, Hq. }
  do 6 (split; [reflexivity |]).
  split.
  { unfold usageLogApi.invoke_args, usageLogApi.or_else. simpl.
    destruct baseUrl as [b|]; [|discriminate].
    destruct (String.eqb_spec b ""); [discriminate | congruence]. }
  split.
  { unfold usageLogApi.invoke_args, usageLogApi.or_else. simpl.
    destruct period as [q|]; [|discriminate].
    destruct (String.eqb_spec q ""); [discriminate | assumption]. }
  do 3 (split; [reflexivity |]).
  split.
  { intros b Hb. unfold usageLogApi.invoke_args, usageLogApi.or_else. simpl.
    apply String.eqb_neq in Hb. now rewrite Hb. }
  do 2 (split; [reflexivity |]).
  split.
  { intros q Hq. unfold usageLogApi.invoke_args, usageLogApi.or_else. simpl.
    apply String.eqb_neq in Hq. now rewrite Hq. }
  split.
  { intros r Hr. unfold usageLogApi.query.
    change (usageLogApi.invoke_args apiKey None None)
      with {| usageLogApi.apiKey := apiKey;
              usageLogApi.baseUrl := None;
              usageLogApi.period := "daily" |}.
    change (usageLogApi.invoke_args apiKey (Some "") (Some ""))
      with {| usageLogApi.apiKey := apiKey;
              usageLogApi.baseUrl := None;
              usageLogApi.period := "daily" |}.
    now rewrite Hr. }
  split.
  { intros r Hr. unfold usageLogApi.queryModelStats.
    change (usageLogApi.invoke_args apiKey None None)
      with {| usageLogApi.apiKey := apiKey;
              usageLogApi.baseUrl := None;
              usageLogApi.period := "daily" |}.
    change (usageLogApi.invoke_args apiKey (Some "") (Some ""))
      with {| usageLogApi.apiKey := apiKey;
              usageLogApi.baseUrl := None;
              usageLogApi.period := "daily" |}.
    now rewrite Hr. }
  split.
  - intros b q r Hb Hq Hr. unfold usageLogApi.query.
    now rewrite (Hargs b q Hb Hq), Hr.
  - intros b q r Hb Hq Hr. unfold usageLogApi.queryModelStats.
    now rewrite (Hargs b q Hb Hq), Hr.
Qed.

(** X15. A fetch of the panel calls each of the two backend commands with one
    and the same argument object: the key, the base URL taken from the
    provider (never [null], since [extractWebsiteUrl] is never empty) and the
    text of the selected period. The setter calls depend on the backend only
    through its two answers to that call. *)
Theorem handleQuery_invocations
  (invoke invoke' : forall A : Type,
      usageLogApi.command A -> usageLogApi.InvokeArgs -> outcome A)
  (provider : option Provider) (apiKey : string) (period : Period) :
  let args :=
    {| usageLogApi.apiKey := apiKey;
       usageLogApi.baseUrl := Some (extractWebsiteUrl provider);
       usageLogApi.period := period_text period |} in
  invoke _ usageLogApi.query_api_usage args = invoke' _ usageLogApi.query_api_usage args ->
  invoke _ usageLogApi.query_model_stats args
  = invoke' _ usageLogApi.query_model_stats args ->
  handleQuery invoke ToString apiKey (extractWebsiteUrl provider) period
  = handleQuery invoke' ToString apiKey (extractWebsiteUrl provider) period
  /\ handlePeriodChange invoke ToString apiKey (extractWebsiteUrl provider) period
     = handlePeriodChange invoke' ToString apiKey (extractWebsiteUrl provider) period.
Proof.
  intros args Hu Hm.
  assert (usageLogApi.invoke_args apiKey (Some (extractWebsiteUrl provider))
            (Some (period_text period)) = args) as Hargs.
  { unfold usageLogApi.invoke_args, usageLogApi.or_else, args.
    assert ((extractWebsiteUrl provider =? "") = false) as ->.
    { apply String.eqb_neq.
      destruct (extractWebsiteUrl_nonempty provider) as [H _]. exact H. }
    now destruct period. }
  unfold handleQuery, handlePeriodChange, usageLogApi.query, usageLogApi.queryModelStats.
  rewrite Hargs, Hu, Hm. split; reflexivity.
Qed.

End InvocationProperties.

Lemma handleQuery_invocations_witness :
  handleQuery overview_refused sample_ToString "sk-token"
    (extractWebsiteUrl (Some claude_provider)) daily
  = handleQuery single_key_backend sample_ToString "sk-token"
      (extractWebsiteUrl (Some claude_provider)) daily
  /\ handlePeriodChange overview_refused sample_ToString "sk-token"
       (extractWebsiteUrl (Some claude_provider)) daily
     = handlePeriodChange single_key_backend sample_ToString "sk-token"
         (extractWebsiteUrl (Some claude_provider)) daily.
Proof.
  apply (handleQuery_invocations sample_ToString overview_refused single_key_backend
           (Some claude_provider) "sk-token" daily); reflexivity.
Defined.

(** ** Sign symmetry of [calcProgress] *)

Lemma SFdiv_opp (x y : spec_float) : SF64div (SFopp x) (SFopp y) = SF64div x y.
Proof.
  destruct x as [sx|sx| |sx mx ex], y as [sy|sy| |sy my ey]; simpl; try reflexivity;
    destruct sx, sy; reflexivity.
Qed.

Lemma float_div_opp (x y : float) : (- x / - y)%float = (x / y)%float.
Proof. apply Prim2SF_inj. rewrite !div_spec, !opp_spec. apply SFdiv_opp. Qed.

Lemma falsy_number_opp (x : float) : falsy_number (- x) = falsy_number x.
Proof.
  unfold falsy_number. f_equal.
  - unfold is_zero. rewrite !eqb_spec, opp_spec.
    now destruct (Prim2SF x) as [[]|[]| |[] m e].
  - apply eq_true_iff_eq. rewrite !is_nan_iff, opp_spec.
    destruct (Prim2SF x); simpl; split; congruence.
Qed.

(** X16. [calcProgress] is unchanged when the signs of both arguments are
    flipped: a negative current value against a negative limit gives the same
    percentage as their magnitudes. *)
Theorem calcProgress_opp (current limit : float) :
  calcProgress (Some (- current)%float) (Some (- limit)%float)
  = calcProgress (Some current) (Some limit).
Proof.
  unfold calcProgress. rewrite !falsy_number_opp, float_div_opp.
  replace (- limit =? 0)%float with (limit =? 0)%float; [reflexivity |].
  rewrite !eqb_spec, opp_spec.
  now destruct (Prim2SF limit) as [[]|[]| |[] m e].
Qed.
